(** * PvPool operator: the reconcile loop of [controllers/pvpool_controller.go]

    A shallow embedding of the PvPool reconciler.  Calls to the Kubernetes
    API and to the storage agents are effects: every call is appended to a
    trace, and its answer is read from an environment that may depend on
    the whole history of calls made so far.  Objects that the Go code
    mutates through pointers ([newStatus], [sts], [pvp]) are threaded
    explicitly.  Logging is left out. *)

From Stdlib Require Import ZArith String Ascii List Bool Lia.
From Stdlib Require Import Floats.SpecFloat.
From stdpp Require Import base option list gmap strings fin_maps.

Local Open Scope Z_scope.

(** ** Machine integers *)

(** Conversion to [int32] keeps the low 32 bits (two's complement). *)
Definition wrap32 (z : Z) : Z := (z + 2 ^ 31) mod 2 ^ 32 - 2 ^ 31.

Definition minInt64 : Z := - 2 ^ 63.
Definition maxInt64 : Z := 2 ^ 63 - 1.
Definition maxUint64 : Z := 2 ^ 64 - 1.

(** ** [time.Duration], in nanoseconds *)

Definition Duration := Z.
Definition Second : Duration := 1000000000.

(** ** Errors *)

Inductive error :=
| ErrNotFound
| ErrAPI (msg : string)
| ErrTransport (url : string)
| ErrStatusCode (code : Z)
| ErrReadBody
| ErrUnmarshal
| ErrSyntax (s : string)
| ErrRange (s : string).

Inductive result (A : Type) :=
| Ok (a : A)
| Err (e : error).
Arguments Ok {A} a.
Arguments Err {A} e.

(** [errors.IsNotFound] *)
Definition IsNotFound (e : error) : bool :=
  match e with ErrNotFound => true | _ => false end.

(** ** Data model *)

Abbreviation PvPodStatus := string (only parsing).
Abbreviation PvPoolPhase := string (only parsing).

(** Modelled from the spec: the constants of package [api/v1], which is not
    part of the sources; the spec gives the pool phases as
    Unknown|Scaling|Ready and the pod states as Unknown, Ready,
    Decommissioning, Decommissioned. *)
Definition PvPoolPhaseUnknown : PvPoolPhase := "Unknown".
Definition PvPoolPhaseScaling : PvPoolPhase := "Scaling".
Definition PvPoolPhaseReady : PvPoolPhase := "Ready".
Definition PvPodStatusUnknown : PvPodStatus := "Unknown".
Definition PvPodStatusReady : PvPodStatus := "Ready".
Definition PvPodStatusDecommissioning : PvPodStatus := "Decommissioning".
Definition PvPodStatusDecommissioned : PvPodStatus := "Decommissioned".

(** [storageAgentStatus]: the status returned by a storage agent. *)
Record storageAgentStatus := {
  sas_Name : string;
  sas_Total : Z;
  sas_Used : Z;
  sas_State : string
}.

Record NamespacedName := { nn_Namespace : string; nn_Name : string }.

Record PvPoolSpec := {
  Image : string;
  NumPVs : Z;
  PvSizeGB : Z;
  StorageClass : string
}.

Record PvPodSInfo := { PodName : string; PodStatus : PvPodStatus }.

Record PvPoolStatus := {
  Phase : PvPoolPhase;
  CountByState : gmap string Z;
  PodsInfo : list PvPodSInfo;
  Used : Z
}.

Record PvPool := {
  Name : string;
  Namespace : string;
  Spec : PvPoolSpec;
  Status : PvPoolStatus
}.

(** The part of [corev1.Service] that [newServiceForPvPool] fills in. *)
Record Service := {
  srv_Name : string;
  srv_Namespace : string;
  srv_Selector : list (string * string);
  srv_Port : Z;
  srv_TargetPort : Z;
  srv_PortName : string;
  srv_Owner : string
}.

(** The part of [appsv1.StatefulSet] that [newStatefulsetForPvPool] fills
    in.  [sts_Replicas] is [*sts.Spec.Replicas]: the API server defaults
    the field, so the pointer is never nil on an object read back. *)
Record StatefulSet := {
  sts_Name : string;
  sts_Namespace : string;
  sts_Replicas : Z;
  sts_Selector : list (string * string);
  sts_ServiceName : string;
  sts_Image : string;
  sts_MilliCPU : Z;
  sts_MegaMemory : Z;
  sts_PvSizeBytes : Z;
  sts_Owner : string
}.

Record Pod := {
  pod_Name : string;
  pod_Namespace : string;
  pod_Subdomain : string
}.

(** [ctrl.Result] *)
Record Result := { RequeueAfter : Duration }.

#[global] Instance error_eq_dec : EqDecision error.
Proof. solve_decision. Defined.
#[global] Instance PvPodSInfo_eq_dec : EqDecision PvPodSInfo.
Proof. solve_decision. Defined.
#[global] Instance PvPoolStatus_eq_dec : EqDecision PvPoolStatus.
Proof. solve_decision. Defined.

(** ** Effects: calls, environment, trace *)

Inductive Method := MethodGet | MethodPut.

Inductive body :=
| BodyUnreadable
| BodyMalformed
| BodyJSON (s : storageAgentStatus).

Record Response := { StatusCode : Z; Body : body }.

Inductive Call :=
| GetPvPool (nn : NamespacedName)
| GetService (nn : NamespacedName)
| GetStatefulSet (nn : NamespacedName)
| CreateService (srv : Service)
| CreateStatefulSet (sts : StatefulSet)
| ListPods (ns : string) (labels : list (string * string))
| UpdateStatefulSet (sts : StatefulSet)
| StatusUpdate (pvp : PvPool)
| HttpDo (m : Method) (url : string).
(* [HttpDo m url] is one call of [client.Do] with a request of method [m]
   for [url]; its answer is what [Do] returns. *)

(** The answers of the outside world.  Each oracle sees the calls made
    before the one it answers. *)
Record Env := {
  on_GetPvPool : list Call -> NamespacedName -> result PvPool;
  on_GetService : list Call -> NamespacedName -> result Service;
  on_GetStatefulSet : list Call -> NamespacedName -> result StatefulSet;
  on_CreateService : list Call -> Service -> option error;
  on_CreateStatefulSet : list Call -> StatefulSet -> option error;
  on_ListPods : list Call -> string -> list (string * string) -> result (list Pod);
  on_UpdateStatefulSet : list Call -> StatefulSet -> option error;
  on_StatusUpdate : list Call -> PvPool -> option error;
  on_HttpDo : list Call -> Method -> string -> result Response
}.

(** A computation reads the history and extends it. *)
Definition M (A : Type) : Type := list Call -> A * list Call.

#[global] Instance M_ret : MRet M := fun A a tr => (a, tr).
#[global] Instance M_bind : MBind M := fun A B f m tr =>
  let '(a, tr') := m tr in f a tr'.

Definition perform {A : Type} (c : Call) (answer : list Call -> A) : M A :=
  fun tr => (answer tr, tr ++ [c]).

(** ** binary64 arithmetic *)

Definition float64 := spec_float.

(** [float64(n)] for an integer [n]: rounded to nearest, ties to even. *)
Definition float64_of_int (n : Z) : float64 := binary_normalize 53 1024 n 0 false.
Definition float64_mul : float64 -> float64 -> float64 := SFmul 53 1024.
Definition float64_div : float64 -> float64 -> float64 := SFdiv 53 1024.

(** The integer part of a finite float (the fraction is discarded). *)
Definition float64_trunc (f : float64) : option Z :=
  match f with
  | S754_zero _ => Some 0
  | S754_finite s m e => Some (cond_Zopp s (Z.shiftl (Zpos m) e))
  | S754_infinity _ | S754_nan => None
  end.

(** ** Strings *)

(** [strings.TrimPrefix] *)
Definition TrimPrefix (s pre : string) : string :=
  if String.prefix pre s
  then String.substring (String.length pre) (String.length s - String.length pre) s
  else s.

Definition digit_of (c : ascii) : option Z :=
  let n := Z.of_N (N_of_ascii c) in
  if (48 <=? n) && (n <=? 57) then Some (n - 48) else None.

(** The digit loop of [strconv.ParseUint] in base 10 with 64 bits:
    [inl n] is the value read, [inr true] a syntax error, [inr false] a
    value that left the range of [uint64] before any bad character. *)
Fixpoint parse_digits (s : string) (acc : Z) : Z + bool :=
  match s with
  | EmptyString => inl acc
  | String c s' =>
    match digit_of c with
    | None => inr true
    | Some d =>
      let acc' := acc * 10 + d in
      if maxUint64 <? acc' then inr false else parse_digits s' acc'
    end
  end.

(** [strconv.Atoi] with a 64-bit [int]: the value and the error.  The fast
    path for short strings and [ParseInt(s, 10, 0)] agree, so one definition
    covers both. *)
Definition Atoi (s0 : string) : Z * option error :=
  let '(neg, s) :=
    match s0 with
    | String "+" s => (false, s)
    | String "-" s => (true, s)
    | _ => (false, s0)
    end in
  match s with
  | EmptyString => (0, Some (ErrSyntax s0))
  | _ =>
    match parse_digits s 0 with
    | inr true => (0, Some (ErrSyntax s0))
    | inr false => (if neg then minInt64 else maxInt64, Some (ErrRange s0))
    | inl un =>
      if negb neg && (2 ^ 63 <=? un) then (maxInt64, Some (ErrRange s0))
      else if neg && (2 ^ 63 <? un) then (minInt64, Some (ErrRange s0))
      else (if neg then - un else un, None)
    end
  end.

(** ** The reconciler *)

Definition dataMountPath : string := "/data".
Definition storageAgentPort : Z := 8080.

Section Reconciler.

(** [r.Client] and the HTTP transport. *)
Variable env : Env.

(** Converting a float that is not a number, is infinite, or lies outside
    [int] is implementation-dependent in Go: the platform's answer. *)
Variable int_of_unrepresentable : float64 -> Z.

(** [int(f)] with a 64-bit [int]. *)
Definition int_of_float64 (f : float64) : Z :=
  match float64_trunc f with
  | Some z => if (minInt64 <=? z) && (z <=? maxInt64) then z else int_of_unrepresentable f
  | None => int_of_unrepresentable f
  end.

Definition doNotRequeue : Result * option error :=
  ({| RequeueAfter := 0 |}, None).

Definition requeueAfterSeconds (seconds : Duration) : Result * option error :=
  ({| RequeueAfter := seconds * Second |}, None).

Definition requeueWithError (err : option error) : Result * option error :=
  ({| RequeueAfter := 3 * Second |}, err).

Definition getPvPoolServiceName (pvp : PvPool) : string := Name pvp +:+ "-srv".

Definition getPvPoolStatefulsetName (pvp : PvPool) : string := Name pvp +:+ "-sts".

Definition getPvPoolLabels (pvp : PvPool) : list (string * string) :=
  [("pv-pool"%string, Name pvp)].

Definition newServiceForPvPool (pvp : PvPool) : Service :=
  {| srv_Name := getPvPoolServiceName pvp;
     srv_Namespace := Namespace pvp;
     srv_Selector := getPvPoolLabels pvp;
     srv_Port := storageAgentPort;
     srv_TargetPort := storageAgentPort;
     srv_PortName := "storage-agent-api";
     srv_Owner := Name pvp |}.

Definition ensurePvPoolService (pvp : PvPool) : M (result Service) :=
  let srvNamespacedName :=
    {| nn_Namespace := Namespace pvp; nn_Name := getPvPoolServiceName pvp |} in
  got ← perform (GetService srvNamespacedName)
          (fun tr => on_GetService env tr srvNamespacedName);
  match got with
  | Err err =>
    if IsNotFound err then
      let pvPoolSrv := newServiceForPvPool pvp in
      err ← perform (CreateService pvPoolSrv)
              (fun tr => on_CreateService env tr pvPoolSrv);
      match err with
      | Some err => mret (Err err)
      | None => mret (Ok pvPoolSrv)
      end
    else mret (Err err)
  | Ok pvPoolSrv => mret (Ok pvPoolSrv)
  end.

Definition newStatefulsetForPvPool (pvp : PvPool) : StatefulSet :=
  let replicas := NumPVs (Spec pvp) in
  let pvSizeBytes := PvSizeGB (Spec pvp) * 1024 * 1024 * 1024 in
  {| sts_Name := getPvPoolStatefulsetName pvp;
     sts_Namespace := Namespace pvp;
     sts_Replicas := replicas;
     sts_Selector := getPvPoolLabels pvp;
     sts_ServiceName := getPvPoolServiceName pvp;
     sts_Image := Image (Spec pvp);
     sts_MilliCPU := 100;
     sts_MegaMemory := 100;
     sts_PvSizeBytes := pvSizeBytes;
     sts_Owner := Name pvp |}.

Definition ensurePvPoolStatefulset (pvp : PvPool) : M (result StatefulSet) :=
  let stsNamespacedName :=
    {| nn_Namespace := Namespace pvp; nn_Name := getPvPoolStatefulsetName pvp |} in
  got ← perform (GetStatefulSet stsNamespacedName)
          (fun tr => on_GetStatefulSet env tr stsNamespacedName);
  match got with
  | Err err =>
    if IsNotFound err then
      let sts := newStatefulsetForPvPool pvp in
      err ← perform (CreateStatefulSet sts)
              (fun tr => on_CreateStatefulSet env tr sts);
      match err with
      | Some err => mret (Err err)
      | None => mret (Ok sts)
      end
    else mret (Err err)
  | Ok sts => mret (Ok sts)
  end.

(** The quotient that [percent] truncates. *)
Definition percent_quotient (part all : Z) : float64 :=
  float64_div (float64_mul (float64_of_int part) (float64_of_int 100))
              (float64_of_int all).

Definition percent (part all : Z) : Z :=
  let p := percent_quotient part all in
  int_of_float64 p.

Definition getPodURL (podName serviceName namespace : string) : string :=
  "http://" +:+ podName +:+ "." +:+ serviceName +:+ "." +:+ namespace
    +:+ ".svc:" +:+ "8080".

(** [getStorageAgentStatus]: the request, then the checks in the order of
    the source: transport (a request that cannot be built or sent), status
    code, reading the body, decoding it. *)
Definition getStorageAgentStatus (url : string) : M (result storageAgentStatus) :=
  let urlRoute := url +:+ "/status" in
  res ← perform (HttpDo MethodGet urlRoute)
          (fun tr => on_HttpDo env tr MethodGet urlRoute);
  match res with
  | Err err => mret (Err err)
  | Ok res =>
    if negb (StatusCode res =? 200) then mret (Err (ErrStatusCode (StatusCode res)))
    else
      match Body res with
      | BodyUnreadable => mret (Err ErrReadBody)
      | BodyMalformed => mret (Err ErrUnmarshal)
      | BodyJSON status => mret (Ok status)
      end
  end.

(** [decommissionStorageAgent]: only a transport failure is an error. *)
Definition decommissionStorageAgent (url : string) : M (option error) :=
  let urlRoute := url +:+ "/manage-agent/decommission" in
  res ← perform (HttpDo MethodPut urlRoute)
          (fun tr => on_HttpDo env tr MethodPut urlRoute);
  match res with
  | Err err => mret (Some err)
  | Ok _ => mret None
  end.

Definition getInstanceNumberString (p s : string) : Z * option error :=
  let numStr := TrimPrefix p (s +:+ "-") in
  Atoi numStr.

(** Reading a Go map: a key that is absent reads as the zero value. *)
Definition map_get (m : gmap string Z) (key : string) : Z := default 0 (m !! key).

(** [pvpStatus.CountByState[state]++] on an [int32] counter. *)
Definition count_incr (state : string) (m : gmap string Z) : gmap string Z :=
  <[state := wrap32 (map_get m state + 1)]> m.

(** The three assignments that end an iteration of [collectPodsStatus]. *)
Definition recordPodStatus (pvpStatus : PvPoolStatus) (pod : Pod)
  (agentStatus : storageAgentStatus) : PvPoolStatus :=
  let state := sas_State agentStatus in
  {| Phase := Phase pvpStatus;
     CountByState := count_incr state (CountByState pvpStatus);
     PodsInfo := PodsInfo pvpStatus
                   ++ [{| PodName := pod_Name pod; PodStatus := state |}];
     Used := percent (sas_Used agentStatus) (sas_Total agentStatus) |}.

(** One iteration of the loop of [collectPodsStatus]. *)
Definition collectPodStatus (pvpStatus : PvPoolStatus) (pod : Pod)
  : M (PvPoolStatus * option error) :=
  got ← getStorageAgentStatus
          (getPodURL (pod_Name pod) (pod_Subdomain pod) (pod_Namespace pod));
  match got with
  | Err err => mret (pvpStatus, Some err)
  | Ok agentStatus => mret (recordPodStatus pvpStatus pod agentStatus, None)
  end.

(** [collectPodsStatus]: the status as left behind, and the error. *)
Fixpoint collectPodsStatus (pvpStatus : PvPoolStatus) (items : list Pod)
  : M (PvPoolStatus * option error) :=
  match items with
  | [] => mret (pvpStatus, None)
  | pod :: items' =>
    '(pvpStatus', err) ← collectPodStatus pvpStatus pod;
    match err with
    | Some err => mret (pvpStatus', Some err)
    | None => collectPodsStatus pvpStatus' items'
    end
  end.

(** The inner loop of [decommissionRequiredPods],
    [for _, pInfo := range podsInfo]: [pInfo] is a copy of the element, the
    assignment to [pInfo.PodStatus] changes the copy, and the copy is
    dropped at the end of the iteration.  The result is the slice itself. *)
Definition markDecommissioned (num : Z) (stsName : string)
  (podsInfo : list PvPodSInfo) : list PvPodSInfo :=
  fold_left
    (fun (slice : list PvPodSInfo) (pInfo : PvPodSInfo) =>
       let req_num := fst (getInstanceNumberString (PodName pInfo) stsName) in
       if num =? req_num then
         let decomm_state := PvPodStatusDecommissioned in
         let pInfo := {| PodName := PodName pInfo; PodStatus := decomm_state |} in
         slice
       else slice)
    podsInfo podsInfo.

Definition set_PodsInfo (pvp : PvPool) (podsInfo : list PvPodSInfo) : PvPool :=
  {| Name := Name pvp; Namespace := Namespace pvp; Spec := Spec pvp;
     Status := {| Phase := Phase (Status pvp);
                  CountByState := CountByState (Status pvp);
                  PodsInfo := podsInfo;
                  Used := Used (Status pvp) |} |}.

(** One iteration of the outer loop of [decommissionRequiredPods]; an
    error ends the loop. *)
Definition decommissionPod (pvp : PvPool) (sts : StatefulSet) (pod : Pod)
  : M (PvPool * option error) :=
  match getInstanceNumberString (pod_Name pod) (sts_Name sts) with
  | (_, Some _) => mret (pvp, None)
  | (num, None) =>
    got ← getStorageAgentStatus
            (getPodURL (pod_Name pod) (pod_Subdomain pod) (pod_Namespace pod));
    match got with
    | Err err => mret (pvp, Some err)
    | Ok agentStatus =>
      let state := sas_State agentStatus in
      if (NumPVs (Spec pvp) <=? wrap32 num)
           && negb (String.eqb state PvPodStatusDecommissioning)
      then
        let url := getPodURL (pod_Name pod) (pod_Subdomain pod) (pod_Namespace pod) in
        err ← decommissionStorageAgent url;
        match err with
        | Some err => mret (pvp, Some err)
        | None =>
          let podsInfo := PodsInfo (Status pvp) in
          mret (set_PodsInfo pvp (markDecommissioned num (sts_Name sts) podsInfo), None)
        end
      else mret (pvp, None)
    end
  end.

Fixpoint decommissionRequiredPods (pvp : PvPool) (sts : StatefulSet)
  (items : list Pod) : M (PvPool * option error) :=
  match items with
  | [] => mret (pvp, None)
  | pod :: items' =>
    '(pvp', err) ← decommissionPod pvp sts pod;
    match err with
    | Some err => mret (pvp', Some err)
    | None => decommissionRequiredPods pvp' sts items'
    end
  end.

Definition set_Replicas (sts : StatefulSet) (replicas : Z) : StatefulSet :=
  {| sts_Name := sts_Name sts; sts_Namespace := sts_Namespace sts;
     sts_Replicas := replicas;
     sts_Selector := sts_Selector sts; sts_ServiceName := sts_ServiceName sts;
     sts_Image := sts_Image sts; sts_MilliCPU := sts_MilliCPU sts;
     sts_MegaMemory := sts_MegaMemory sts; sts_PvSizeBytes := sts_PvSizeBytes sts;
     sts_Owner := sts_Owner sts |}.

Definition set_Phase (st : PvPoolStatus) (phase : PvPoolPhase) : PvPoolStatus :=
  {| Phase := phase; CountByState := CountByState st;
     PodsInfo := PodsInfo st; Used := Used st |}.

(** The objects behind the pointers that [reconcilePvPoolStatefulset]
    receives, as it leaves them. *)
Record Objects := {
  o_pvp : PvPool;
  o_sts : StatefulSet;
  o_newStatus : PvPoolStatus
}.

(** [reconcilePvPoolStatefulset]: the scaling and decommission engine. *)
Definition reconcilePvPoolStatefulset (pvp : PvPool) (sts : StatefulSet)
  (srv : Service) (newStatus : PvPoolStatus) (items : list Pod)
  : M (Objects * option error) :=
  let shouldUpdate := false in
  '(shouldUpdate, o) ←
    (if (sts_Replicas sts <=? NumPVs (Spec pvp))
          && negb (map_get (CountByState newStatus) PvPodStatusReady =? NumPVs (Spec pvp))
     then
       mret (true,
             {| o_pvp := pvp;
                o_sts := set_Replicas sts (NumPVs (Spec pvp));
                o_newStatus := set_Phase newStatus PvPoolPhaseScaling |})
     else if NumPVs (Spec pvp) <? sts_Replicas sts then
       '(pvp', _) ← decommissionRequiredPods pvp sts items;
       mret (shouldUpdate,
             {| o_pvp := pvp'; o_sts := sts; o_newStatus := newStatus |})
     else if map_get (CountByState newStatus) PvPodStatusReady =? NumPVs (Spec pvp) then
       mret (shouldUpdate,
             {| o_pvp := pvp; o_sts := sts;
                o_newStatus := set_Phase newStatus PvPoolPhaseReady |})
     else
       mret (shouldUpdate,
             {| o_pvp := pvp; o_sts := sts;
                o_newStatus := set_Phase newStatus PvPoolPhaseScaling |}));
  if shouldUpdate : bool then
    err ← perform (UpdateStatefulSet (o_sts o))
            (fun tr => on_UpdateStatefulSet env tr (o_sts o));
    match err with
    | Some err => mret (o, Some err)
    | None => mret (o, None)
    end
  else mret (o, None).

Definition set_Status (pvp : PvPool) (st : PvPoolStatus) : PvPool :=
  {| Name := Name pvp; Namespace := Namespace pvp; Spec := Spec pvp; Status := st |}.

(** [reconcilePvPool]: the pool as left behind, the new status, the error. *)
Definition reconcilePvPool (pvp : PvPool) : M (PvPool * PvPoolStatus * option error) :=
  let newStatus :=
    {| Phase := PvPoolPhaseUnknown; CountByState := ∅; PodsInfo := []; Used := 0 |} in
  srv ← ensurePvPoolService pvp;
  match srv with
  | Err err => mret (pvp, newStatus, Some err)
  | Ok srv =>
    sts ← ensurePvPoolStatefulset pvp;
    match sts with
    | Err err => mret (pvp, newStatus, Some err)
    | Ok sts =>
      podList ← perform (ListPods (Namespace pvp) (getPvPoolLabels pvp))
                  (fun tr => on_ListPods env tr (Namespace pvp) (getPvPoolLabels pvp));
      match podList with
      | Err err => mret (pvp, newStatus, Some err)
      | Ok podList =>
        '(newStatus, err) ← collectPodsStatus newStatus podList;
        match err with
        | Some err => mret (pvp, newStatus, Some err)
        | None =>
          '(o, err) ← reconcilePvPoolStatefulset pvp sts srv newStatus podList;
          match err with
          | Some err => mret (o_pvp o, o_newStatus o, Some err)
          | None => mret (o_pvp o, o_newStatus o, None)
          end
        end
      end
    end
  end.

(** The two dynamic types that [Reconcile] hands to [reflect.DeepEqual]. *)
Inductive GoValue :=
| PtrPvPoolStatus (target : PvPoolStatus)
| ValPvPoolStatus (v : PvPoolStatus).

(** [reflect.DeepEqual]: values of distinct types are never deeply equal;
    a pointer is compared through its target. *)
Definition DeepEqual (x y : GoValue) : bool :=
  match x, y with
  | PtrPvPoolStatus a, PtrPvPoolStatus b => bool_decide (a = b)
  | ValPvPoolStatus a, ValPvPoolStatus b => bool_decide (a = b)
  | _, _ => false
  end.

(** [Reconcile] *)
Definition Reconcile (req : NamespacedName) : M (Result * option error) :=
  got ← perform (GetPvPool req) (fun tr => on_GetPvPool env tr req);
  match got with
  | Err err =>
    if IsNotFound err then mret doNotRequeue
    else mret (requeueWithError (Some err))
  | Ok pvPool =>
    let err : option error := None in
    '(pvPool, newStatus, reconcileErr) ← reconcilePvPool pvPool;
    '(pvPool, updateErr) ←
      (if negb (DeepEqual (PtrPvPoolStatus newStatus) (ValPvPoolStatus (Status pvPool)))
       then
         let pvPool := set_Status pvPool newStatus in
         err ← perform (StatusUpdate pvPool) (fun tr => on_StatusUpdate env tr pvPool);
         mret (pvPool, err)
       else mret (pvPool, None));
    match updateErr with
    | Some err => mret (requeueWithError (Some err))
    | None =>
      match reconcileErr with
      | Some _ => mret (requeueWithError err)
      | None =>
        if negb (String.eqb (Phase (Status pvPool)) PvPoolPhaseReady)
        then mret (requeueAfterSeconds 3)
        else mret (requeueAfterSeconds 60)
      end
    end
  end.

End Reconciler.

(** ** Observations on a pass *)

(** The status object that [reconcilePvPool] starts from. *)
Definition freshStatus : PvPoolStatus :=
  {| Phase := PvPoolPhaseUnknown; CountByState := ∅; PodsInfo := []; Used := 0 |}.

Definition statusURL (pod : Pod) : string :=
  getPodURL (pod_Name pod) (pod_Subdomain pod) (pod_Namespace pod) +:+ "/status".

Definition decommissionURL (pod : Pod) : string :=
  getPodURL (pod_Name pod) (pod_Subdomain pod) (pod_Namespace pod)
    +:+ "/manage-agent/decommission".

Definition okResponse (a : storageAgentStatus) : Response :=
  {| StatusCode := 200; Body := BodyJSON a |}.

(** Status [a] is an answer of [pod]'s agent to a status request. *)
Definition answers (env : Env) (pod : Pod) (a : storageAgentStatus) : Prop :=
  exists tr, on_HttpDo env tr MethodGet (statusURL pod) = Ok (okResponse a).

(** The status request to [pod]'s agent fails with [e]: the agent cannot be
    reached, or its answer is not a well-formed status with code 200. *)
Definition fails (env : Env) (pod : Pod) (e : error) : Prop :=
  exists tr,
    fst (getStorageAgentStatus env
           (getPodURL (pod_Name pod) (pod_Subdomain pod) (pod_Namespace pod)) tr)
    = Err e.

(** The decommission requests of a trace, in order. *)
Definition decommission_calls (tr : list Call) : list string :=
  omap (fun c => match c with HttpDo MethodPut url => Some url | _ => None end) tr.

(** The writes to the scale-group of a trace, in order. *)
Definition statefulset_writes (tr : list Call) : list StatefulSet :=
  omap (fun c => match c with
                 | UpdateStatefulSet sts | CreateStatefulSet sts => Some sts
                 | _ => None
                 end) tr.

(** The status writes of a trace, in order. *)
Definition status_updates (tr : list Call) : list PvPoolStatus :=
  omap (fun c => match c with StatusUpdate pvp => Some (Status pvp) | _ => None end) tr.

Definition count_url (url : string) (urls : list string) : nat :=
  length (List.filter (String.eqb url) urls).

(** The ordinal of a pod as [decommissionRequiredPods] reads it. *)
Definition ordinal (stsName : string) (pod : Pod) : option Z :=
  match getInstanceNumberString (pod_Name pod) stsName with
  | (num, None) => Some (wrap32 num)
  | (_, Some _) => None
  end.

(** The sum of the counters of a count-by-state mapping. *)
Definition tally_total (m : gmap string Z) : Z :=
  map_fold (fun _ n acc => n + acc) 0 m.

(** How many of the reports carry state [s]. *)
Definition count_state (s : string) (reports : list storageAgentStatus) : Z :=
  Z.of_nat (length (List.filter (fun a => String.eqb (sas_State a) s) reports)).

Definition podInfo (pod : Pod) (a : storageAgentStatus) : PvPodSInfo :=
  {| PodName := pod_Name pod; PodStatus := sas_State a |}.

(** A float that stands for the integer [N], with a full mantissa. *)
Definition represents (f : float64) (N : Z) : Prop :=
  exists m e, f = S754_finite false m e /\ -52 <= e <= 0
    /\ Zpos m = N * 2 ^ (- e) /\ 2 ^ 52 <= Zpos m < 2 ^ 53.

(** The status after recording [reports], one per pod of [items]. *)
Definition recordAll (impl : float64 -> Z) (st : PvPoolStatus)
  (items : list Pod) (reports : list storageAgentStatus) : PvPoolStatus :=
  fold_left (fun acc pa => recordPodStatus impl acc (fst pa) (snd pa)) (zip items reports) st.

(** Decimal numerals, for the pod names [<scale-group>-<index>]. *)
Definition digit_char (d : Z) : ascii := ascii_of_N (Z.to_N (48 + d)).

Fixpoint decimal (ds : list Z) : string :=
  match ds with
  | [] => EmptyString
  | d :: ds' => String (digit_char d) (decimal ds')
  end.

Definition digits_value (ds : list Z) : Z :=
  fold_left (fun acc d => acc * 10 + d) ds 0.

Definition is_digit (d : Z) : Prop := 0 <= d <= 9.

(** A call to a storage agent. *)
Definition agent_call (c : Call) : Prop := exists m url, c = HttpDo m url.

(** The status request to the agent of [pod]. *)
Definition statusRequest (pod : Pod) : Call := HttpDo MethodGet (statusURL pod).

(** The name of [pod] yields an ordinal. *)
Definition has_ordinal (stsName : string) (pod : Pod) : bool :=
  match ordinal stsName pod with Some _ => true | None => false end.

(** The decommission request to the agent of [pod]. *)
Definition decommissionRequest (pod : Pod) : Call :=
  HttpDo MethodPut (decommissionURL pod).

(** The test of [decommissionRequiredPods] on a pod whose agent has just
    reported [a]: the ordinal is at least [desired] and the reported state
    is not Decommissioning. *)
Definition required (desired : Z) (stsName : string) (pod : Pod)
  (a : storageAgentStatus) : bool :=
  match ordinal stsName pod with
  | Some i => (desired <=? i)
              && negb (String.eqb (sas_State a) PvPodStatusDecommissioning)
  | None => false
  end.

Definition required_pair (desired : Z) (stsName : string)
  (pa : Pod * storageAgentStatus) : bool :=
  required desired stsName (fst pa) (snd pa).

(** The pods among [pods], with reports [reports], that pass the test. *)
Definition decommissioned (desired : Z) (stsName : string) (pods : list Pod)
  (reports : list storageAgentStatus) : list Pod :=
  map fst (List.filter (required_pair desired stsName) (zip pods reports)).

(** The calls of one iteration of the decommission loop, on a pod whose
    agent reports [a]. *)
Definition step_calls (desired : Z) (stsName : string) (pod : Pod)
  (a : storageAgentStatus) : list Call :=
  statusRequest pod
  :: (if required desired stsName pod a then [decommissionRequest pod] else []).

(** [rereads env desired stsName tr pods reports tr']: starting from the
    history [tr], the agents of [pods], asked one after the other as the
    decommission loop asks them, report [reports] (each at the history of
    the moment it is asked) and accept the decommission requests that the
    loop then makes; [tr'] is the history at the end. *)
Inductive rereads (env : Env) (desired : Z) (stsName : string)
  : list Call -> list Pod -> list storageAgentStatus -> list Call -> Prop :=
| rereads_nil tr : rereads env desired stsName tr [] [] tr
| rereads_cons tr pod pods a reports tr' :
    on_HttpDo env tr MethodGet (statusURL pod) = Ok (okResponse a) ->
    (required desired stsName pod a = true ->
     exists res,
       on_HttpDo env (tr ++ [statusRequest pod]) MethodPut (decommissionURL pod)
       = Ok res) ->
    rereads env desired stsName (tr ++ step_calls desired stsName pod a)
      pods reports tr' ->
    rereads env desired stsName tr (pod :: pods) (a :: reports) tr'.

(** [reported_in_turn env tr pods reports]: starting from the history
    [tr], the agents of [pods], asked for their status one after the other,
    report [reports], each at the history of the moment it is asked. *)
Fixpoint reported_in_turn (env : Env) (tr : list Call) (pods : list Pod)
  (reports : list storageAgentStatus) : Prop :=
  match pods, reports with
  | [], [] => True
  | pod :: pods', a :: reports' =>
    on_HttpDo env tr MethodGet (statusURL pod) = Ok (okResponse a)
    /\ reported_in_turn env (tr ++ [statusRequest pod]) pods' reports'
  | _, _ => False
  end.

Definition serviceKey (pvp : PvPool) : NamespacedName :=
  {| nn_Namespace := Namespace pvp; nn_Name := getPvPoolServiceName pvp |}.

Definition statefulsetKey (pvp : PvPool) : NamespacedName :=
  {| nn_Namespace := Namespace pvp; nn_Name := getPvPoolStatefulsetName pvp |}.

Definition listPods (pvp : PvPool) : Call :=
  ListPods (Namespace pvp) (getPvPoolLabels pvp).

(** [reconcilePvPool] fails with [e] before it asks any agent, leaving the
    trace [tr']: ensuring the service fails, or ensuring the scale-group
    fails, or listing the pods fails. *)
Definition fails_early (env : Env) (pvp : PvPool) (tr : list Call) (e : error)
  (tr' : list Call) : Prop :=
  ensurePvPoolService env pvp tr = (Err e, tr')
  \/ (exists srv tr1,
        ensurePvPoolService env pvp tr = (Ok srv, tr1)
        /\ ensurePvPoolStatefulset env pvp tr1 = (Err e, tr'))
  \/ (exists srv tr1 sts tr2,
        ensurePvPoolService env pvp tr = (Ok srv, tr1)
        /\ ensurePvPoolStatefulset env pvp tr1 = (Ok sts, tr2)
        /\ on_ListPods env tr2 (Namespace pvp) (getPvPoolLabels pvp) = Err e
        /\ tr' = tr2 ++ [listPods pvp]).

(** The first pass for a pool that has no service and no scale-group yet:
    both are missing and are created, and no pod is listed. *)
Definition brand_new (env : Env) (pvp : PvPool) (tr : list Call) : Prop :=
  let t2 := tr ++ [GetService (serviceKey pvp); CreateService (newServiceForPvPool pvp)] in
  let t4 := t2 ++ [GetStatefulSet (statefulsetKey pvp);
                   CreateStatefulSet (newStatefulsetForPvPool pvp)] in
  (exists e, on_GetService env tr (serviceKey pvp) = Err e /\ IsNotFound e = true)
  /\ on_CreateService env (tr ++ [GetService (serviceKey pvp)]) (newServiceForPvPool pvp)
     = None
  /\ (exists e, on_GetStatefulSet env t2 (statefulsetKey pvp) = Err e
                /\ IsNotFound e = true)
  /\ on_CreateStatefulSet env (t2 ++ [GetStatefulSet (statefulsetKey pvp)])
       (newStatefulsetForPvPool pvp) = None
  /\ on_ListPods env t4 (Namespace pvp) (getPvPoolLabels pvp) = Ok [].

(** The calls of [brand_new], in order. *)
Definition brand_new_calls (pvp : PvPool) : list Call :=
  [GetService (serviceKey pvp); CreateService (newServiceForPvPool pvp);
   GetStatefulSet (statefulsetKey pvp);
   CreateStatefulSet (newStatefulsetForPvPool pvp); listPods pvp].

(** ** A pool to run the reconciler on *)

Module Demo.

Definition mkPod (name : string) : Pod :=
  {| pod_Name := name; pod_Namespace := "default"; pod_Subdomain := "pool-srv" |}.

Definition stored : PvPoolStatus :=
  {| Phase := PvPoolPhaseReady; CountByState := {[ PvPodStatusReady := 2 ]};
     PodsInfo := []; Used := 0 |}.

Definition pool (desired : Z) : PvPool :=
  {| Name := "pool"; Namespace := "default";
     Spec := {| Image := "storage-agent:1"; NumPVs := desired; PvSizeGB := 5;
                StorageClass := "" |};
     Status := stored |}.

Definition req : NamespacedName := {| nn_Namespace := "default"; nn_Name := "pool" |}.

Definition sts (desired current : Z) : StatefulSet :=
  set_Replicas (newStatefulsetForPvPool (pool desired)) current.

Definition srv (desired : Z) : Service := newServiceForPvPool (pool desired).

(** amd64: the conversion yields the smallest [int64]. *)
Definition amd64 (f : float64) : Z := minInt64.

(** A cluster in which the pool, its service and its scale-group exist and
    every write succeeds; [agent] answers for the storage agents. *)
Definition cluster (desired current : Z) (items : list Pod)
  (agent : list Call -> Method -> string -> result Response) : Env :=
  {| on_GetPvPool := fun _ _ => Ok (pool desired);
     on_GetService := fun _ _ => Ok (srv desired);
     on_GetStatefulSet := fun _ _ => Ok (sts desired current);
     on_CreateService := fun _ _ => None;
     on_CreateStatefulSet := fun _ _ => None;
     on_ListPods := fun _ _ _ => Ok items;
     on_UpdateStatefulSet := fun _ _ => None;
     on_StatusUpdate := fun _ _ => None;
     on_HttpDo := agent |}.

Definition report (state : string) (used total : Z) : storageAgentStatus :=
  {| sas_Name := "agent"; sas_Total := total; sas_Used := used; sas_State := state |}.

Definition pods (n : nat) : list Pod :=
  firstn n [mkPod "pool-sts-0"; mkPod "pool-sts-1"; mkPod "pool-sts-2";
            mkPod "pool-sts-3"].

(** Every agent reports [state], 10 used of 100. *)
Definition all_in (state : string) : list Call -> Method -> string -> result Response :=
  fun _ _ _ => Ok (okResponse (report state 10 100)).

(** The agent of ordinal 1 cannot be reached; the others are Ready. *)
Definition unreachable_1 : list Call -> Method -> string -> result Response :=
  fun _ _ url =>
    if String.eqb url (statusURL (mkPod "pool-sts-1")) then Err (ErrTransport url)
    else Ok (okResponse (report PvPodStatusReady 10 100)).

(** Every agent is Unknown; the decommission request to ordinal 2 fails. *)
Definition refuses_2 : list Call -> Method -> string -> result Response :=
  fun _ _ url =>
    if String.eqb url (decommissionURL (mkPod "pool-sts-2")) then Err (ErrTransport url)
    else Ok (okResponse (report PvPodStatusUnknown 10 100)).

(** The agent of ordinal 3 is Unknown; the others are Ready. *)
Definition unknown_3 : list Call -> Method -> string -> result Response :=
  fun _ _ url =>
    if String.eqb url (statusURL (mkPod "pool-sts-3"))
    then Ok (okResponse (report PvPodStatusUnknown 10 100))
    else Ok (okResponse (report PvPodStatusReady 10 100)).

(** Every agent is Ready and reports [used] of [total]. *)
Definition reporting (used total : Z) : list Call -> Method -> string -> result Response :=
  fun _ _ _ => Ok (okResponse (report PvPodStatusReady used total)).

(** Every agent is Ready and refuses decommission requests. *)
Definition ready_refusing : list Call -> Method -> string -> result Response :=
  fun _ m url =>
    match m with
    | MethodGet => Ok (okResponse (report PvPodStatusReady 10 100))
    | MethodPut => Err (ErrTransport url)
    end.

(** An agent reports Decommissioning once a decommission request for it is
    in the history, and Unknown before. *)
Definition turns_decommissioning : list Call -> Method -> string -> result Response :=
  fun tr _ url =>
    if existsb (fun pod =>
                  String.eqb url (statusURL pod)
                  && existsb (String.eqb (decommissionURL pod)) (decommission_calls tr))
         (pods 4)
    then Ok (okResponse (report PvPodStatusDecommissioning 10 100))
    else Ok (okResponse (report PvPodStatusUnknown 10 100)).

(** The status that a pass leaves when the agent of ordinal 1 fails. *)
Definition partial_status : PvPoolStatus :=
  {| Phase := PvPoolPhaseUnknown; CountByState := {[ PvPodStatusReady := 1 ]};
     PodsInfo := [{| PodName := "pool-sts-0"; PodStatus := PvPodStatusReady |}];
     Used := 10 |}.

Definition two_ready : PvPoolStatus :=
  {| Phase := PvPoolPhaseUnknown; CountByState := {[ PvPodStatusReady := 2 ]};
     PodsInfo := [{| PodName := "pool-sts-0"; PodStatus := PvPodStatusReady |};
                  {| PodName := "pool-sts-1"; PodStatus := PvPodStatusReady |}];
     Used := 10 |}.

(** The status collected when the agent of ordinal 3 is Unknown and the
    others are Ready. *)
Definition three_ready : PvPoolStatus :=
  {| Phase := PvPoolPhaseUnknown;
     CountByState := {[ PvPodStatusReady := 3; PvPodStatusUnknown := 1 ]};
     PodsInfo := map (fun pod => podInfo pod (report PvPodStatusReady 10 100)) (pods 3)
                 ++ [podInfo (mkPod "pool-sts-3") (report PvPodStatusUnknown 10 100)];
     Used := 10 |}.

Definition four_ready : PvPoolStatus :=
  {| Phase := PvPoolPhaseUnknown; CountByState := {[ PvPodStatusReady := 4 ]};
     PodsInfo := map (fun pod => podInfo pod (report PvPodStatusReady 10 100)) (pods 4);
     Used := 10 |}.

Definition four_unknown : PvPoolStatus :=
  {| Phase := PvPoolPhaseUnknown; CountByState := {[ PvPodStatusUnknown := 4 ]};
     PodsInfo := map (fun pod => podInfo pod (report PvPodStatusUnknown 10 100)) (pods 4);
     Used := 10 |}.

(** The pool has been deleted. *)
Definition gone : Env :=
  {| on_GetPvPool := fun _ _ => Err ErrNotFound;
     on_GetService := fun _ _ => Err ErrNotFound;
     on_GetStatefulSet := fun _ _ => Err ErrNotFound;
     on_CreateService := fun _ _ => None;
     on_CreateStatefulSet := fun _ _ => None;
     on_ListPods := fun _ _ _ => Ok [];
     on_UpdateStatefulSet := fun _ _ => None;
     on_StatusUpdate := fun _ _ => None;
     on_HttpDo := all_in PvPodStatusReady |}.

(** The pool exists, nothing else does yet. *)
Definition fresh_cluster (desired : Z) : Env :=
  {| on_GetPvPool := fun _ _ => Ok (pool desired);
     on_GetService := fun _ _ => Err ErrNotFound;
     on_GetStatefulSet := fun _ _ => Err ErrNotFound;
     on_CreateService := fun _ _ => None;
     on_CreateStatefulSet := fun _ _ => None;
     on_ListPods := fun _ _ _ => Ok [];
     on_UpdateStatefulSet := fun _ _ => None;
     on_StatusUpdate := fun _ _ => None;
     on_HttpDo := all_in PvPodStatusReady |}.

(** The cluster of [cluster], with every status write refused. *)
Definition write_refused (desired current : Z) (items : list Pod)
  (agent : list Call -> Method -> string -> result Response) : Env :=
  {| on_GetPvPool := fun _ _ => Ok (pool desired);
     on_GetService := fun _ _ => Ok (srv desired);
     on_GetStatefulSet := fun _ _ => Ok (sts desired current);
     on_CreateService := fun _ _ => None;
     on_CreateStatefulSet := fun _ _ => None;
     on_ListPods := fun _ _ _ => Ok items;
     on_UpdateStatefulSet := fun _ _ => None;
     on_StatusUpdate := fun _ _ => Some (ErrAPI "conflict");
     on_HttpDo := agent |}.

(** The API server times out on the service. *)
Definition no_service (desired : Z) : Env :=
  {| on_GetPvPool := fun _ _ => Ok (pool desired);
     on_GetService := fun _ _ => Err (ErrAPI "timeout");
     on_GetStatefulSet := fun _ _ => Ok (sts desired desired);
     on_CreateService := fun _ _ => None;
     on_CreateStatefulSet := fun _ _ => None;
     on_ListPods := fun _ _ _ => Ok [];
     on_UpdateStatefulSet := fun _ _ => None;
     on_StatusUpdate := fun _ _ => None;
     on_HttpDo := all_in PvPodStatusReady |}.

End Demo.

(** * Properties *)

Import Demo.

(** ** binary64: digits, shifts and rounding *)

Lemma digits2_pos_size p : digits2_pos p = Pos.size p.
Proof. induction p; simpl; congruence. Qed.

Lemma Zdigits2_log2 p : Zdigits2 (Zpos p) = Z.log2 (Zpos p) + 1.
Proof.
  unfold Zdigits2. rewrite digits2_pos_size.
  destruct p; simpl; lia.
Qed.

Lemma Zdigits2_bounds p : 2 ^ (Zdigits2 (Zpos p) - 1) <= Zpos p < 2 ^ Zdigits2 (Zpos p).
Proof.
  rewrite Zdigits2_log2.
  replace (Z.log2 (Zpos p) + 1 - 1) with (Z.log2 (Zpos p)) by lia.
  apply Z.log2_spec. lia.
Qed.

Lemma Zdigits2_unique p d : 2 ^ (d - 1) <= Zpos p < 2 ^ d -> Zdigits2 (Zpos p) = d.
Proof.
  intros H. rewrite Zdigits2_log2.
  assert (0 <= d - 1).
  { destruct (Z.le_gt_cases 0 (d - 1)) as [|Hn]; [done|].
    assert (d <= 0) by lia.
    assert (2 ^ d <= 2 ^ 0) by (destruct (Z.eq_dec d 0); [subst; lia|]; rewrite Z.pow_neg_r by lia; simpl; lia).
    simpl in *. lia. }
  rewrite (Z.log2_unique (Zpos p) (d - 1)); [lia|lia|].
  replace (Z.succ (d - 1)) with d by lia. done.
Qed.

Lemma shr_1_exact c : 0 <= c ->
  shr_1 {| shr_m := 2 * c; shr_r := false; shr_s := false |}
  = {| shr_m := c; shr_r := false; shr_s := false |}.
Proof. intros Hc. destruct c as [|q|q]; [reflexivity|reflexivity|lia]. Qed.

Lemma iter_shr_1_exact p : forall c, 0 <= c ->
  SpecFloat.iter_pos shr_1 p {| shr_m := c * 2 ^ Zpos p; shr_r := false; shr_s := false |}
  = {| shr_m := c; shr_r := false; shr_s := false |}.
Proof.
  induction p as [p IH|p IH|]; intros c Hc; cbn [SpecFloat.iter_pos].
  - replace (c * 2 ^ Z.pos p~1) with (2 * ((c * 2 ^ Zpos p) * 2 ^ Zpos p)).
    + rewrite shr_1_exact by (apply Z.mul_nonneg_nonneg; [apply Z.mul_nonneg_nonneg|]; lia).
      rewrite IH by (apply Z.mul_nonneg_nonneg; lia). apply IH, Hc.
    + rewrite (Pos2Z.inj_xI p), Z.pow_add_r, Z.pow_mul_r by lia.
      replace (2 ^ 2) with 4 by reflexivity. rewrite Z.pow_1_r.
      rewrite <- (Z.pow_mul_r 2 2) by lia.
      replace (2 * Zpos p) with (Zpos p + Zpos p) by lia. rewrite Z.pow_add_r by lia. ring.
  - replace (c * 2 ^ Z.pos p~0) with ((c * 2 ^ Zpos p) * 2 ^ Zpos p).
    + rewrite IH by (apply Z.mul_nonneg_nonneg; lia). apply IH, Hc.
    + rewrite (Pos2Z.inj_xO p).
      replace (2 * Zpos p) with (Zpos p + Zpos p) by lia. rewrite Z.pow_add_r by lia. ring.
  - rewrite Z.pow_1_r, Z.mul_comm. apply shr_1_exact, Hc.
Qed.



Lemma fexp_eq x : fexp 53 1024 x = Z.max (x - 53) (-1074).
Proof. reflexivity. Qed.

Lemma shr_fexp_eq m e l :
  shr_fexp 53 1024 m e l = shr (shr_record_of_loc m l) e (fexp 53 1024 (Zdigits2 m + e) - e).
Proof. reflexivity. Qed.



Lemma shr_exact c e n : 0 <= c -> 0 <= n ->
  shr {| shr_m := c * 2 ^ n; shr_r := false; shr_s := false |} e n
  = ({| shr_m := c; shr_r := false; shr_s := false |}, e + n).
Proof.
  intros Hc Hn. destruct n as [|p|p]; cbn [shr].
  - rewrite Z.pow_0_r, Z.mul_1_r, Z.add_0_r. reflexivity.
  - rewrite iter_shr_1_exact by done. reflexivity.
  - lia.
Qed.

Lemma pow2_lt_inv a b : 2 ^ a < 2 ^ b -> 0 <= b -> a < b.
Proof.
  intros H Hb. destruct (Z.lt_ge_cases a b) as [|Hge]; [done|].
  assert (2 ^ b <= 2 ^ a) by (apply Z.pow_le_mono_r; lia). lia.
Qed.

Lemma Zdigits2_pos p : 0 < Zdigits2 (Zpos p).
Proof. rewrite Zdigits2_log2. pose proof (Z.log2_nonneg (Zpos p)). lia. Qed.

Lemma round_exact (mx : positive) (N s : Z) :
  0 < N < 2 ^ 53 -> 0 <= s -> Zpos mx = N * 2 ^ s -> 2 ^ 52 <= Zpos mx ->
  represents (binary_round_aux 53 1024 false (Zpos mx) (- s) loc_Exact) N.
Proof.
  intros HN Hs Hmx Hlow.
  pose proof (Zdigits2_bounds mx) as Hd. pose proof (Zdigits2_pos mx) as Hdpos.
  set (d := Zdigits2 (Zpos mx)) in *.
  assert (Hd53 : 53 <= d).
  { assert (52 < d); [|lia]. apply pow2_lt_inv; lia. }
  assert (Hks : d - 53 <= s).
  { assert (d - 1 < 53 + s); [|lia]. apply pow2_lt_inv; [|lia].
    rewrite Z.pow_add_r by lia. nia. }
  set (k := d - 53) in *.
  remember (N * 2 ^ (s - k)) as c eqn:Ec.
  assert (Hck : Zpos mx = c * 2 ^ k).
  { rewrite Ec. rewrite <- Z.mul_assoc, <- Z.pow_add_r by lia.
    replace (s - k + k) with s by lia. exact Hmx. }
  assert (H2k : 0 < 2 ^ k) by (apply Z.pow_pos_nonneg; lia).
  assert (Hc : 2 ^ 52 <= c < 2 ^ 53).
  { replace d with (53 + k) in Hd by lia.
    replace (53 + k - 1) with (52 + k) in Hd by lia.
    rewrite !Z.pow_add_r in Hd by lia. nia. }
  assert (Hsk : s - k <= 52).
  { assert (s - k < 53); [|lia]. apply pow2_lt_inv; [|lia].
    assert (0 < 2 ^ (s - k)) by (apply Z.pow_pos_nonneg; lia). nia. }
  unfold binary_round_aux.
  rewrite shr_fexp_eq, fexp_eq. fold d.
  replace (Z.max (d + - s - 53) (-1074) - - s) with k by lia.
  cbn [shr_record_of_loc]. rewrite Hck, shr_exact by lia.
  cbn [loc_of_shr_record shr_m round_nearest_even].
  destruct c as [|pc|pc]; try lia.
  rewrite shr_fexp_eq, fexp_eq.
  rewrite (Zdigits2_unique pc 53) by (simpl Z.sub; lia).
  replace (Z.max (53 + (- s + k) - 53) (-1074) - (- s + k)) with 0 by lia.
  cbn [shr shr_record_of_loc shr_m].
  replace (- s + k <=? 1024 - 53) with true by (symmetry; apply Z.leb_le; lia).
  exists pc, (- s + k). repeat split; try lia.
  replace (- (- s + k)) with (s - k) by lia. exact Ec.
Qed.

Lemma Pos_iter_xO p n : Zpos (Pos.iter xO p n) = Zpos p * 2 ^ Zpos n.
Proof.
  induction n as [|n IH] using Pos.peano_ind.
  - cbn [Pos.iter]. rewrite Z.pow_1_r. lia.
  - rewrite Pos.iter_succ, Pos2Z.inj_xO, IH, Pos2Z.inj_succ, Z.pow_succ_r by lia. ring.
Qed.

Lemma float64_of_int_represents N : 0 < N < 2 ^ 53 -> represents (float64_of_int N) N.
Proof.
  intros HN. destruct N as [|p|p]; try lia.
  unfold float64_of_int, binary_normalize, binary_round.
  pose proof (Zdigits2_bounds p) as Hd. pose proof (Zdigits2_pos p) as Hdpos.
  change (Zpos (digits2_pos p)) with (Zdigits2 (Zpos p)).
  set (d := Zdigits2 (Zpos p)) in *.
  assert (Hd53 : d <= 53).
  { assert (d - 1 < 53); [|lia]. apply pow2_lt_inv; lia. }
  rewrite fexp_eq. replace (Z.max (d + 0 - 53) (-1074)) with (d - 53) by lia.
  unfold shl_align. rewrite Z.sub_0_r.
  destruct (d - 53) as [|k|k] eqn:Ek; try lia.
  - replace 0 with (- 0) at 1 by reflexivity.
    apply round_exact; try lia. replace d with 53 in Hd by lia. simpl Z.sub in Hd. lia.
  - replace (Z.neg k) with (- Zpos k) by reflexivity.
    apply round_exact; try lia.
    + rewrite Pos_iter_xO. reflexivity.
    + rewrite Pos_iter_xO. replace (Zpos k) with (53 - d) by lia.
      assert (2 ^ 52 = 2 ^ (d - 1) * 2 ^ (53 - d)).
      { rewrite <- Z.pow_add_r by lia. f_equal. lia. }
      assert (0 < 2 ^ (53 - d)) by (apply Z.pow_pos_nonneg; lia). nia.
Qed.

Lemma float64_mul_represents f g a c :
  represents f a -> represents g c -> 0 < a -> 0 < c -> a * c < 2 ^ 53 ->
  represents (float64_mul f g) (a * c).
Proof.
  intros (ma & ea & -> & Hea & Hma & Hra) (mc & ec & -> & Hec & Hmc & Hrc) Ha Hc Hac.
  unfold float64_mul, SFmul. cbn [xorb].
  replace (ea + ec) with (- (- ea + - ec)) by lia.
  apply round_exact; [lia | lia | |]; rewrite Pos2Z.inj_mul.
  - rewrite Hma, Hmc, Z.pow_add_r by lia. ring.
  - nia.
Qed.







(** ** Runs of the status collection *)

Section Runs.
Variable env : Env.
Variable impl : float64 -> Z.

Lemma bind_run {A B : Type} (m : M A) (f : A -> M B) tr :
  (m ≫= f) tr = let '(a, tr') := m tr in f a tr'.
Proof. reflexivity. Qed.

Lemma getStorageAgentStatus_run url tr :
  getStorageAgentStatus env url tr
  = (match on_HttpDo env tr MethodGet (url +:+ "/status") with
     | Err err => Err err
     | Ok res =>
       if negb (StatusCode res =? 200) then Err (ErrStatusCode (StatusCode res))
       else match Body res with
            | BodyUnreadable => Err ErrReadBody
            | BodyMalformed => Err ErrUnmarshal
            | BodyJSON status => Ok status
            end
     end, tr ++ [HttpDo MethodGet (url +:+ "/status")]).
Proof.
  unfold getStorageAgentStatus. rewrite bind_run. unfold perform.
  destruct (on_HttpDo env tr MethodGet (url +:+ "/status")) as [res|err]; [|reflexivity].
  destruct (negb (StatusCode res =? 200)); [reflexivity|].
  destruct (Body res); reflexivity.
Qed.

Lemma getStorageAgentStatus_Ok url tr a tr' :
  getStorageAgentStatus env url tr = (Ok a, tr') ->
  on_HttpDo env tr MethodGet (url +:+ "/status") = Ok (okResponse a)
  /\ tr' = tr ++ [HttpDo MethodGet (url +:+ "/status")].
Proof.
  rewrite getStorageAgentStatus_run. intros H.
  destruct (on_HttpDo env tr MethodGet (url +:+ "/status")) as [[code b]|err];
    cbn [StatusCode Body] in H; [|discriminate].
  destruct (code =? 200) eqn:Ec; cbn [negb] in H; [|discriminate].
  apply Z.eqb_eq in Ec. subst code.
  destruct b; inversion H; subst. split; reflexivity.
Qed.

Lemma collectPodStatus_run st pod tr :
  collectPodStatus env impl st pod tr
  = (match fst (getStorageAgentStatus env (getPodURL (pod_Name pod) (pod_Subdomain pod) (pod_Namespace pod)) tr) with
     | Err err => (st, Some err)
     | Ok a => (recordPodStatus impl st pod a, None)
     end, tr ++ [HttpDo MethodGet (statusURL pod)]).
Proof.
  unfold collectPodStatus. rewrite bind_run, getStorageAgentStatus_run. cbn [fst].
  unfold statusURL.
  destruct (on_HttpDo _ _ _ _) as [res|err]; [|reflexivity].
  destruct (negb _); [reflexivity|]. destruct (Body res); reflexivity.
Qed.

Lemma collectPodsStatus_cons st pod items tr :
  collectPodsStatus env impl st (pod :: items) tr
  = let '((st', err), tr') := collectPodStatus env impl st pod tr in
    match err with
    | Some err => ((st', Some err), tr')
    | None => collectPodsStatus env impl st' items tr'
    end.
Proof.
  cbn [collectPodsStatus]. rewrite bind_run.
  destruct (collectPodStatus env impl st pod tr) as [[st' [e|]] tr']; reflexivity.
Qed.

Lemma collectPodsStatus_success items : forall st tr st' tr',
  collectPodsStatus env impl st items tr = ((st', None), tr') ->
  exists reports,
    Forall2 (answers env) items reports
    /\ st' = recordAll impl st items reports
    /\ tr' = tr ++ map (fun p => HttpDo MethodGet (statusURL p)) items.
Proof.
  induction items as [|pod items IH]; intros st tr st' tr' H.
  - inversion H; subst. exists []. rewrite app_nil_r. repeat split. constructor.
  - rewrite collectPodsStatus_cons, collectPodStatus_run in H.
    destruct (getStorageAgentStatus env _ tr) as [[a|err] tr1] eqn:Eg;
      cbn [fst] in H; [|discriminate].
    apply getStorageAgentStatus_Ok in Eg as [Ha _].
    apply IH in H as (reports & Hall & -> & ->).
    exists (a :: reports). split; [|split].
    + constructor; [exists tr; exact Ha | exact Hall].
    + reflexivity.
    + cbn [map]. rewrite <- app_assoc. reflexivity.
Qed.

Lemma collectPodsStatus_failure items : forall st tr st' e tr',
  collectPodsStatus env impl st items tr = ((st', Some e), tr') ->
  exists pre pod post reports,
    items = pre ++ pod :: post
    /\ Forall2 (answers env) pre reports
    /\ fails env pod e
    /\ st' = recordAll impl st pre reports.
Proof.
  induction items as [|pod items IH]; intros st tr st' e tr' H.
  - inversion H.
  - rewrite collectPodsStatus_cons, collectPodStatus_run in H.
    destruct (getStorageAgentStatus env _ tr) as [[a|err] tr1] eqn:Eg; cbn [fst] in H.
    + apply getStorageAgentStatus_Ok in Eg as [Ha _].
      apply IH in H as (pre & p & post & reports & -> & Hall & Hfail & ->).
      exists (pod :: pre), p, post, (a :: reports). repeat split; [|exact Hfail].
      constructor; [exists tr; exact Ha | exact Hall].
    + inversion H; subst. exists [], pod, items, []. repeat split; [constructor|].
      exists tr. rewrite Eg. reflexivity.
Qed.

End Runs.

(** ** The count-by-state tally *)

Lemma wrap32_small z : - 2 ^ 31 <= z < 2 ^ 31 -> wrap32 z = z.
Proof. intros H. unfold wrap32. rewrite Z.mod_small; lia. Qed.

Lemma tally_total_insert (m : gmap string Z) k v :
  tally_total (<[k:=v]> m) = tally_total m - map_get m k + v.
Proof.
  unfold tally_total, map_get.
  destruct (m !! k) as [x|] eqn:E; cbn [default].
  - rewrite (map_fold_delete_L _ _ k x m); [|intros; cbv beta; lia|exact E].
    rewrite <- insert_delete_eq.
    rewrite map_fold_insert_L; [cbv beta; unfold id; lia|intros; cbv beta; lia|apply lookup_delete_eq].
  - rewrite map_fold_insert_L; [cbv beta; lia|intros; cbv beta; lia|exact E].
Qed.

Lemma map_get_count_incr (m : gmap string Z) state s :
  map_get (count_incr state m) s
  = if String.eqb state s then wrap32 (map_get m state + 1) else map_get m s.
Proof.
  unfold count_incr, map_get at 1.
  destruct (String.eqb_spec state s) as [->|Hne].
  - rewrite lookup_insert_eq. reflexivity.
  - rewrite lookup_insert_ne by done. reflexivity.
Qed.

Section Records.
Variable impl : float64 -> Z.

Lemma recordAll_nil st reports : recordAll impl st [] reports = st.
Proof. reflexivity. Qed.

Lemma recordAll_cons st pod items a reports :
  recordAll impl st (pod :: items) (a :: reports)
  = recordAll impl (recordPodStatus impl st pod a) items reports.
Proof. reflexivity. Qed.


Lemma recordAll_Phase items : forall st reports,
  Phase (recordAll impl st items reports) = Phase st.
Proof.
  induction items as [|pod items IH]; intros st [|a reports]; try reflexivity.
  rewrite recordAll_cons, IH. reflexivity.
Qed.

Lemma recordAll_PodsInfo items : forall st reports,
  PodsInfo (recordAll impl st items reports)
  = PodsInfo st ++ zip_with podInfo items reports.
Proof.
  induction items as [|pod items IH]; intros st [|a reports];
    try (cbn; rewrite app_nil_r; reflexivity).
  rewrite recordAll_cons, IH. cbn [recordPodStatus PodsInfo zip_with].
  rewrite <- app_assoc. reflexivity.
Qed.

Lemma recordAll_counts items : forall st reports bound,
  length items = length reports ->
  (forall s, 0 <= map_get (CountByState st) s <= bound) ->
  bound + Z.of_nat (length reports) < 2 ^ 31 ->
  (forall s, map_get (CountByState (recordAll impl st items reports)) s
             = map_get (CountByState st) s + count_state s reports)
  /\ tally_total (CountByState (recordAll impl st items reports))
     = tally_total (CountByState st) + Z.of_nat (length reports).
Proof.
  induction items as [|pod items IH]; intros st [|a reports] bound Hlen Hst Hb;
    try discriminate.
  - rewrite recordAll_nil. unfold count_state. cbn [List.filter length]. split; [intros s|]; lia.
  - rewrite recordAll_cons.
    cbn [length] in Hlen, Hb. rewrite Nat2Z.inj_succ in Hb.
    assert (Hw : wrap32 (map_get (CountByState st) (sas_State a) + 1)
                 = map_get (CountByState st) (sas_State a) + 1).
    { apply wrap32_small. specialize (Hst (sas_State a)). lia. }
    destruct (IH (recordPodStatus impl st pod a) reports (bound + 1)) as [Hc Ht].
    + lia.
    + intros s. cbn [recordPodStatus CountByState]. rewrite map_get_count_incr.
      pose proof (Hst s). pose proof (Hst (sas_State a)).
      destruct (String.eqb (sas_State a) s); [rewrite Hw|]; lia.
    + lia.
    + split.
      * intros s. rewrite Hc. cbn [recordPodStatus CountByState].
        rewrite map_get_count_incr, Hw. unfold count_state. cbn [List.filter].
        destruct (String.eqb_spec (sas_State a) s) as [Heq|Hne].
        -- rewrite Heq. cbn [length]. lia.
        -- lia.
      * rewrite Ht. cbn [recordPodStatus CountByState length].
        unfold count_incr. rewrite tally_total_insert, Hw. lia.
Qed.

End Records.

(** ** Decommissioning and the engine *)

Lemma markDecommissioned_id num stsName podsInfo :
  markDecommissioned num stsName podsInfo = podsInfo.
Proof.
  unfold markDecommissioned. generalize podsInfo at 2 3 as slice.
  induction podsInfo as [|pInfo rest IH]; intros slice; cbn [fold_left].
  - reflexivity.
  - destruct (num =? _); apply IH.
Qed.

Lemma set_PodsInfo_id pvp : set_PodsInfo pvp (PodsInfo (Status pvp)) = pvp.
Proof. destruct pvp as [n ns sp [ph c pi u]]. reflexivity. Qed.

Lemma decommission_calls_app tr1 tr2 :
  decommission_calls (tr1 ++ tr2) = decommission_calls tr1 ++ decommission_calls tr2.
Proof. apply omap_app. Qed.

Lemma statefulset_writes_app tr1 tr2 :
  statefulset_writes (tr1 ++ tr2) = statefulset_writes tr1 ++ statefulset_writes tr2.
Proof. apply omap_app. Qed.

Lemma count_url_absent url urls : url ∉ urls -> count_url url urls = 0%nat.
Proof.
  unfold count_url. induction urls as [|u urls IH]; intros Hn; [reflexivity|].
  cbn [List.filter]. apply not_elem_of_cons in Hn as [Hne Hn].
  destruct (String.eqb_spec url u); [contradiction|]. apply IH, Hn.
Qed.

Lemma count_url_map_filter {A : Type} (f : A -> string) (P : A -> bool) (l : list A) x :
  NoDup (map f l) -> x ∈ l ->
  count_url (f x) (map f (List.filter P l)) = if P x then 1%nat else 0%nat.
Proof.
  induction l as [|h t IH]; intros Hnd Hx; [by apply elem_of_nil in Hx|].
  cbn [map] in Hnd. apply NoDup_cons in Hnd as [Hh Hnd].
  assert (Hsub : forall u, u ∉ map f t -> u ∉ map f (List.filter P t)).
  { intros u Hu Hin. apply Hu. apply list_elem_of_In, in_map_iff in Hin as (y & <- & Hy).
    apply filter_In in Hy as [Hy _]. apply list_elem_of_In, in_map, Hy. }
  apply elem_of_cons in Hx as [->|Hx].
  - cbn [List.filter]. destruct (P h); cbn [map].
    + unfold count_url. cbn [List.filter]. rewrite String.eqb_refl. cbn [length].
      f_equal. apply (count_url_absent (f h)), Hsub, Hh.
    + apply count_url_absent, Hsub, Hh.
  - assert (Hne : f x <> f h).
    { intros Heq. apply Hh. rewrite <- Heq. apply list_elem_of_In, in_map, list_elem_of_In, Hx. }
    cbn [List.filter]. destruct (P h); cbn [map].
    + unfold count_url. cbn [List.filter].
      destruct (String.eqb_spec (f x) (f h)); [contradiction|]. apply IH; assumption.
    + apply IH; assumption.
Qed.

Lemma NoDup_map_filter {A B : Type} (f : A -> B) (P : A -> bool) (l : list A) :
  NoDup (map f l) -> NoDup (map f (List.filter P l)).
Proof.
  induction l as [|h t IH]; intros Hnd; [exact Hnd|].
  cbn [map] in Hnd. apply NoDup_cons in Hnd as [Hh Hnd].
  cbn [List.filter]. destruct (P h); [|apply IH, Hnd].
  cbn [map]. apply NoDup_cons. split; [|apply IH, Hnd].
  intros Hin. apply Hh.
  apply list_elem_of_In, in_map_iff in Hin as (y & <- & Hy).
  apply filter_In in Hy as [Hy _]. apply list_elem_of_In, in_map, Hy.
Qed.

Lemma NoDup_map_inj {A B : Type} (f : A -> B) (l : list A) x y :
  NoDup (map f l) -> x ∈ l -> y ∈ l -> f x = f y -> x = y.
Proof.
  induction l as [|h t IH]; intros Hnd Hx Hy Heq; [by apply elem_of_nil in Hx|].
  cbn [map] in Hnd. apply NoDup_cons in Hnd as [Hh Hnd].
  apply elem_of_cons in Hx as [->|Hx]; apply elem_of_cons in Hy as [->|Hy].
  - reflexivity.
  - exfalso. apply Hh. rewrite Heq. apply list_elem_of_In, in_map, list_elem_of_In, Hy.
  - exfalso. apply Hh. rewrite <- Heq. apply list_elem_of_In, in_map, list_elem_of_In, Hx.
  - apply IH; assumption.
Qed.

Lemma map_fst_zip {A B : Type} (l : list A) : forall (r : list B),
  length r = length l -> map fst (zip l r) = l.
Proof.
  induction l as [|h t IH]; intros [|b r] Hl; try discriminate; [reflexivity|].
  cbn. f_equal. apply IH. cbn in Hl. lia.
Qed.

Lemma decommission_calls_steps desired stsName pairs :
  decommission_calls
    (flat_map (fun pa => step_calls desired stsName (fst pa) (snd pa)) pairs)
  = map decommissionURL (map fst (List.filter (required_pair desired stsName) pairs)).
Proof.
  induction pairs as [|[pod a] pairs IH]; [reflexivity|].
  cbn [flat_map List.filter fst snd]. rewrite decommission_calls_app, IH.
  unfold step_calls, required_pair. cbn [fst snd].
  destruct (required desired stsName pod a); reflexivity.
Qed.

Section Engine.
Variable env : Env.
Variable impl : float64 -> Z.

Lemma decommissionStorageAgent_run url tr :
  decommissionStorageAgent env url tr
  = (match on_HttpDo env tr MethodPut (url +:+ "/manage-agent/decommission") with
     | Err err => Some err
     | Ok _ => None
     end, tr ++ [HttpDo MethodPut (url +:+ "/manage-agent/decommission")]).
Proof.
  unfold decommissionStorageAgent. rewrite bind_run. unfold perform.
  destruct (on_HttpDo _ _ _ _); reflexivity.
Qed.

(** An iteration of the decommission loop that ends without error either
    skips the pod (its name yields no ordinal) or asks its agent, gets a
    report, and has the decommission request accepted when it makes one. *)
Lemma decommissionPod_success pvp sts pod tr pvp' tr' :
  decommissionPod env pvp sts pod tr = ((pvp', None), tr') ->
  pvp' = pvp
  /\ ((has_ordinal (sts_Name sts) pod = false /\ tr' = tr)
      \/ (exists a,
            has_ordinal (sts_Name sts) pod = true
            /\ on_HttpDo env tr MethodGet (statusURL pod) = Ok (okResponse a)
            /\ (required (NumPVs (Spec pvp)) (sts_Name sts) pod a = true ->
                exists res,
                  on_HttpDo env (tr ++ [statusRequest pod]) MethodPut (decommissionURL pod)
                  = Ok res)
            /\ tr' = tr ++ step_calls (NumPVs (Spec pvp)) (sts_Name sts) pod a)).
Proof.
  unfold decommissionPod, has_ordinal, step_calls, required, ordinal.
  destruct (getInstanceNumberString (pod_Name pod) (sts_Name sts)) as [num [err|]].
  - intros H. inversion H; subst. split; [reflexivity|]. left. split; reflexivity.
  - cbv beta iota. rewrite bind_run.
    destruct (getStorageAgentStatus env _ tr) as [[a|e] tr1] eqn:Hget.
    2:{ intros H. inversion H. }
    apply getStorageAgentStatus_Ok in Hget as [Hget ->]. fold (statusURL pod) in Hget |- *.
    fold (statusRequest pod).
    destruct ((NumPVs (Spec pvp) <=? wrap32 num)
              && negb (String.eqb (sas_State a) PvPodStatusDecommissioning)) eqn:Hreq.
    + rewrite bind_run, decommissionStorageAgent_run. fold (decommissionURL pod).
      destruct (on_HttpDo env (tr ++ [statusRequest pod]) MethodPut (decommissionURL pod))
        as [res|e] eqn:Hput.
      2:{ intros H. inversion H. }
      rewrite markDecommissioned_id, set_PodsInfo_id.
      intros H. inversion H; subst. split; [reflexivity|]. right. exists a. rewrite Hreq.
      split; [reflexivity|]. split; [exact Hget|]. split; [intros _; by exists res|].
      rewrite <- app_assoc. reflexivity.
    + intros H. inversion H; subst. split; [reflexivity|]. right. exists a. rewrite Hreq.
      split; [reflexivity|]. split; [exact Hget|]. split; [discriminate|]. reflexivity.
Qed.

Lemma decommissionRequiredPods_cons pvp sts pod items tr :
  decommissionRequiredPods env pvp sts (pod :: items) tr
  = let '((pvp', err), tr') := decommissionPod env pvp sts pod tr in
    match err with
    | Some err => ((pvp', Some err), tr')
    | None => decommissionRequiredPods env pvp' sts items tr'
    end.
Proof.
  cbn [decommissionRequiredPods]. rewrite bind_run.
  destruct (decommissionPod env pvp sts pod tr) as [[pvp' [e|]] tr']; reflexivity.
Qed.

(** A decommission loop that ends without error has asked, in order, the
    agents of the pods whose name yields an ordinal; its calls are those of
    the iterations. *)
Lemma decommissionRequiredPods_success pvp sts items : forall tr pvp' tr',
  decommissionRequiredPods env pvp sts items tr = ((pvp', None), tr') ->
  pvp' = pvp
  /\ exists reports,
       rereads env (NumPVs (Spec pvp)) (sts_Name sts) tr
         (List.filter (has_ordinal (sts_Name sts)) items) reports tr'
       /\ length reports = length (List.filter (has_ordinal (sts_Name sts)) items)
       /\ tr' = tr ++ flat_map (fun pa => step_calls (NumPVs (Spec pvp)) (sts_Name sts)
                                            (fst pa) (snd pa))
                        (zip (List.filter (has_ordinal (sts_Name sts)) items) reports).
Proof.
  induction items as [|pod items IH]; intros tr pvp' tr' H.
  - inversion H; subst. split; [reflexivity|]. exists []. cbn.
    rewrite app_nil_r. repeat split. constructor.
  - rewrite decommissionRequiredPods_cons in H.
    destruct (decommissionPod env pvp sts pod tr) as [[pvp1 [e|]] tr1] eqn:Hpod;
      [inversion H|].
    apply decommissionPod_success in Hpod as [-> Hpod].
    apply IH in H as [-> (reports & Hrr & Hlen & ->)]. split; [reflexivity|].
    cbn [List.filter].
    destruct Hpod as [[Hno ->]|(a & Hyes & Hget & Hput & ->)].
    + rewrite Hno. exists reports. repeat split; assumption.
    + rewrite Hyes. exists (a :: reports). split; [|split].
      * econstructor; eassumption.
      * cbn [length]. rewrite Hlen. reflexivity.
      * cbn [zip zip_with flat_map fst snd]. rewrite <- app_assoc. reflexivity.
Qed.

(** Conversely, when the agents answer in turn the loop ends without
    error. *)
Lemma decommissionRequiredPods_rereads pvp sts items : forall tr reports tr',
  rereads env (NumPVs (Spec pvp)) (sts_Name sts) tr
    (List.filter (has_ordinal (sts_Name sts)) items) reports tr' ->
  decommissionRequiredPods env pvp sts items tr = ((pvp, None), tr').
Proof.
  induction items as [|pod items IH]; intros tr reports tr' Hrr.
  - inversion Hrr; subst. reflexivity.
  - rewrite decommissionRequiredPods_cons. cbn [List.filter] in Hrr.
    unfold decommissionPod.
    destruct (has_ordinal (sts_Name sts) pod) eqn:Ho; unfold has_ordinal, ordinal in Ho;
      destruct (getInstanceNumberString (pod_Name pod) (sts_Name sts))
        as [num [err|]] eqn:Hnum; try discriminate Ho.
    + inversion Hrr as [|? ? ? a ? ? Hget Hput Hrest]; subst.
      rewrite bind_run, getStorageAgentStatus_run. fold (statusURL pod). rewrite Hget.
      cbn [okResponse StatusCode Body Z.eqb Pos.eqb negb].
      unfold step_calls, required, ordinal in Hput, Hrest. rewrite Hnum in Hput, Hrest.
      cbv beta iota in Hput, Hrest. fold (statusRequest pod).
      destruct ((NumPVs (Spec pvp) <=? wrap32 num)
                && negb (String.eqb (sas_State a) PvPodStatusDecommissioning)).
      * rewrite bind_run, decommissionStorageAgent_run. fold (decommissionURL pod).
        destruct (Hput eq_refl) as [res ->].
        rewrite markDecommissioned_id, set_PodsInfo_id.
        cbv beta iota delta [mret M_ret]. rewrite <- app_assoc.
        apply (IH _ _ _ Hrest).
      * cbv beta iota delta [mret M_ret]. apply (IH _ _ _ Hrest).
    + cbv beta iota delta [mret M_ret]. apply (IH _ _ _ Hrr).
Qed.

Lemma engine_scale_up pvp sts srv st items tr :
  sts_Replicas sts <= NumPVs (Spec pvp) ->
  map_get (CountByState st) PvPodStatusReady <> NumPVs (Spec pvp) ->
  reconcilePvPoolStatefulset env pvp sts srv st items tr
  = (({| o_pvp := pvp;
         o_sts := set_Replicas sts (NumPVs (Spec pvp));
         o_newStatus := set_Phase st PvPoolPhaseScaling |},
      on_UpdateStatefulSet env tr (set_Replicas sts (NumPVs (Spec pvp)))),
     tr ++ [UpdateStatefulSet (set_Replicas sts (NumPVs (Spec pvp)))]).
Proof.
  intros Hle Hready. unfold reconcilePvPoolStatefulset.
  apply Z.leb_le in Hle. apply Z.eqb_neq in Hready. rewrite Hle, Hready.
  cbn [andb negb]. cbv beta iota delta [mbind M_bind mret M_ret perform o_sts].
  destruct (on_UpdateStatefulSet env tr _); reflexivity.
Qed.

Lemma engine_converged pvp sts srv st items tr :
  sts_Replicas sts = NumPVs (Spec pvp) ->
  map_get (CountByState st) PvPodStatusReady = NumPVs (Spec pvp) ->
  reconcilePvPoolStatefulset env pvp sts srv st items tr
  = (({| o_pvp := pvp; o_sts := sts; o_newStatus := set_Phase st PvPoolPhaseReady |},
      None), tr).
Proof.
  intros Heq Hready. unfold reconcilePvPoolStatefulset.
  rewrite Heq, Hready, Z.leb_refl, Z.eqb_refl, Z.ltb_irrefl. reflexivity.
Qed.

Lemma engine_scale_down pvp sts srv st items tr pvp' tr' :
  NumPVs (Spec pvp) < sts_Replicas sts ->
  decommissionRequiredPods env pvp sts items tr = ((pvp', None), tr') ->
  reconcilePvPoolStatefulset env pvp sts srv st items tr
  = (({| o_pvp := pvp; o_sts := sts; o_newStatus := st |}, None), tr').
Proof.
  intros Hlt Hrun. unfold reconcilePvPoolStatefulset.
  destruct (decommissionRequiredPods_success _ _ _ _ _ _ Hrun) as [-> _].
  assert (H1 : (sts_Replicas sts <=? NumPVs (Spec pvp)) = false) by (apply Z.leb_gt; lia).
  assert (H2 : (NumPVs (Spec pvp) <? sts_Replicas sts) = true) by (apply Z.ltb_lt; lia).
  rewrite H1, H2. cbn [andb]. rewrite !bind_run. rewrite Hrun. reflexivity.
Qed.

(** With as many replicas as desired and another Ready count, the first
    branch runs: the scale-group is written back as it is. *)
Lemma engine_equal_replicas_not_ready pvp sts srv st items tr :
  sts_Replicas sts = NumPVs (Spec pvp) ->
  map_get (CountByState st) PvPodStatusReady <> NumPVs (Spec pvp) ->
  reconcilePvPoolStatefulset env pvp sts srv st items tr
  = (({| o_pvp := pvp; o_sts := sts;
         o_newStatus := set_Phase st PvPoolPhaseScaling |},
      on_UpdateStatefulSet env tr sts),
     tr ++ [UpdateStatefulSet sts]).
Proof.
  intros Heq Hready. rewrite engine_scale_up by (assumption || lia).
  rewrite <- Heq. destruct sts. reflexivity.
Qed.

(** When the guards of the first two branches fail, the guard of the third
    holds: the last branch of [reconcilePvPoolStatefulset] is never taken. *)
Lemma engine_last_branch_unreachable pvp sts st :
  (sts_Replicas sts <=? NumPVs (Spec pvp))
    && negb (map_get (CountByState st) PvPodStatusReady =? NumPVs (Spec pvp)) = false ->
  (NumPVs (Spec pvp) <? sts_Replicas sts) = false ->
  (map_get (CountByState st) PvPodStatusReady =? NumPVs (Spec pvp)) = true.
Proof.
  intros H1 H2. apply Z.ltb_ge in H2. apply andb_false_iff in H1 as [H1|H1].
  - apply Z.leb_gt in H1. lia.
  - apply negb_false_iff in H1. exact H1.
Qed.

End Engine.

(** ** The reconcile pass *)

Section Pass.
Variable env : Env.
Variable impl : float64 -> Z.

Lemma reconcilePvPool_collect_failed pvp tr srv tr1 sts tr2 items st e tr3 :
  ensurePvPoolService env pvp tr = (Ok srv, tr1) ->
  ensurePvPoolStatefulset env pvp tr1 = (Ok sts, tr2) ->
  on_ListPods env tr2 (Namespace pvp) (getPvPoolLabels pvp) = Ok items ->
  collectPodsStatus env impl freshStatus items
    (tr2 ++ [ListPods (Namespace pvp) (getPvPoolLabels pvp)]) = ((st, Some e), tr3) ->
  reconcilePvPool env impl pvp tr = ((pvp, st, Some e), tr3).
Proof.
  intros Hsrv Hsts Hlist Hcol. unfold reconcilePvPool.
  cbv beta iota delta [mbind M_bind mret M_ret perform].
  rewrite Hsrv, Hsts, Hlist. fold freshStatus. rewrite Hcol. reflexivity.
Qed.

Lemma Reconcile_found req tr pvp pvp' st rerr tr1 :
  on_GetPvPool env tr req = Ok pvp ->
  reconcilePvPool env impl pvp (tr ++ [GetPvPool req]) = ((pvp', st, rerr), tr1) ->
  Reconcile env impl req tr
  = (match on_StatusUpdate env tr1 (set_Status pvp' st) with
     | Some err => requeueWithError (Some err)
     | None =>
       match rerr with
       | Some _ => requeueWithError None
       | None =>
         if negb (String.eqb (Phase st) PvPoolPhaseReady)
         then requeueAfterSeconds 3 else requeueAfterSeconds 60
       end
     end, tr1 ++ [StatusUpdate (set_Status pvp' st)]).
Proof.
  intros Hget Hrec. unfold Reconcile.
  cbv beta iota delta [mbind M_bind mret M_ret perform].
  rewrite Hget, Hrec. cbn [DeepEqual negb].
  destruct (on_StatusUpdate env tr1 (set_Status pvp' st)) as [err|]; [reflexivity|].
  destruct rerr; [reflexivity|]. cbn [set_Status Status].
  destruct (negb _); reflexivity.
Qed.

Lemma requeue_after_error (o : option error) :
  RequeueAfter (fst (requeueWithError o)) = 3 * Second.
Proof. reflexivity. Qed.

End Pass.

(** ** Pod names and ordinals *)

Lemma digit_cases d : is_digit d ->
  d = 0 \/ d = 1 \/ d = 2 \/ d = 3 \/ d = 4 \/ d = 5 \/ d = 6 \/ d = 7 \/ d = 8 \/ d = 9.
Proof. unfold is_digit. lia. Qed.

Lemma digit_of_digit_char d : is_digit d -> digit_of (digit_char d) = Some d.
Proof.
  intros H. apply digit_cases in H.
  repeat (destruct H as [->|H]; [reflexivity|]). subst. reflexivity.
Qed.

Lemma fold_digits_mono ds : forall acc,
  Forall is_digit ds -> 0 <= acc -> acc <= fold_left (fun acc d => acc * 10 + d) ds acc.
Proof.
  induction ds as [|d ds IH]; intros acc Hds Hacc; cbn [fold_left]; [lia|].
  apply Forall_cons in Hds as [Hd Hds]. unfold is_digit in Hd.
  etransitivity; [|apply IH; [exact Hds|lia]]. lia.
Qed.

Lemma parse_digits_decimal ds : forall acc,
  Forall is_digit ds -> 0 <= acc ->
  fold_left (fun acc d => acc * 10 + d) ds acc <= maxUint64 ->
  parse_digits (decimal ds) acc = inl (fold_left (fun acc d => acc * 10 + d) ds acc).
Proof.
  induction ds as [|d ds IH]; intros acc Hds Hacc Hmax; cbn [decimal parse_digits fold_left].
  - reflexivity.
  - apply Forall_cons in Hds as [Hd Hds]. rewrite digit_of_digit_char by exact Hd.
    cbn [fold_left] in Hmax. unfold is_digit in Hd.
    pose proof (fold_digits_mono ds (acc * 10 + d) Hds ltac:(lia)) as Hm.
    replace (maxUint64 <? acc * 10 + d) with false by (symmetry; apply Z.ltb_ge; lia).
    apply IH; [exact Hds|lia|exact Hmax].
Qed.

Lemma substring_all s : substring 0 (String.length s) s = s.
Proof. induction s as [|c s IH]; [reflexivity|]. cbn. rewrite IH. reflexivity. Qed.

Lemma prefix_app pre s : String.prefix pre (pre +:+ s) = true.
Proof.
  induction pre as [|c pre IH]; simpl.
  - destruct s; reflexivity.
  - destruct (ascii_dec c c); [exact IH|contradiction].
Qed.

Lemma substring_app pre s :
  substring (String.length pre) (String.length (pre +:+ s) - String.length pre) (pre +:+ s) = s.
Proof.
  induction pre as [|c pre IH]; simpl.
  - rewrite Nat.sub_0_r. apply substring_all.
  - exact IH.
Qed.

Lemma TrimPrefix_app pre s : TrimPrefix (pre +:+ s) pre = s.
Proof. unfold TrimPrefix. rewrite prefix_app. apply substring_app. Qed.

Lemma Atoi_decimal ds :
  ds <> [] -> Forall is_digit ds -> digits_value ds < 2 ^ 63 ->
  Atoi (decimal ds) = (digits_value ds, None).
Proof.
  intros Hne Hds Hv. destruct ds as [|d ds]; [contradiction|].
  pose proof (parse_digits_decimal (d :: ds) 0 Hds ltac:(lia)) as Hp.
  fold (digits_value (d :: ds)) in Hp.
  pose proof (fold_digits_mono (d :: ds) 0 Hds ltac:(lia)) as Hnn.
  fold (digits_value (d :: ds)) in Hnn.
  assert (Hp' : parse_digits (decimal (d :: ds)) 0 = inl (digits_value (d :: ds))).
  { apply Hp. unfold maxUint64. lia. }
  assert (Hsign : Atoi (decimal (d :: ds))
                  = match parse_digits (decimal (d :: ds)) 0 with
                    | inr true => (0, Some (ErrSyntax (decimal (d :: ds))))
                    | inr false => (maxInt64, Some (ErrRange (decimal (d :: ds))))
                    | inl un =>
                      if negb false && (2 ^ 63 <=? un)
                      then (maxInt64, Some (ErrRange (decimal (d :: ds))))
                      else if false && (2 ^ 63 <? un)
                           then (minInt64, Some (ErrRange (decimal (d :: ds))))
                           else (un, None)
                    end).
  { apply Forall_cons in Hds as [Hd _]. apply digit_cases in Hd.
    repeat (destruct Hd as [->|Hd]; [reflexivity|]). subst. reflexivity. }
  rewrite Hsign, Hp'. cbn [negb andb].
  replace (2 ^ 63 <=? digits_value (d :: ds)) with false by (symmetry; apply Z.leb_gt; lia).
  reflexivity.
Qed.

Lemma ordinal_of_convention stsName ds ns sub :
  ds <> [] -> Forall is_digit ds -> digits_value ds < 2 ^ 31 ->
  ordinal stsName {| pod_Name := (stsName +:+ "-") +:+ decimal ds;
                     pod_Namespace := ns; pod_Subdomain := sub |}
  = Some (digits_value ds).
Proof.
  intros Hne Hds Hv. unfold ordinal, getInstanceNumberString. cbn [pod_Name].
  rewrite TrimPrefix_app, Atoi_decimal; [|exact Hne|exact Hds|lia].
  f_equal. apply wrap32_small.
  pose proof (fold_digits_mono ds 0 Hds ltac:(lia)) as Hnn.
  fold (digits_value ds) in Hnn. lia.
Qed.

(** ** The claims of the specification *)


Lemma map_get_empty s : map_get ∅ s = 0.
Proof. unfold map_get. rewrite lookup_empty. reflexivity. Qed.

(** C1, as the code has it.  When getting a storage agent's status fails
    during status collection, the pass does not leave the Pool's status
    alone: the working status of the pass (phase Unknown, with the entries
    of the pods that answered before the failing one) is written to the
    Pool whenever it differs from the stored status, as the last call of
    the pass, and a retry after three seconds is scheduled. *)
Theorem collect_failure_writes_partial_status env impl req tr pvp srv tr1 sts tr2 items st e tr3 :
  on_GetPvPool env tr req = Ok pvp ->
  ensurePvPoolService env pvp (tr ++ [GetPvPool req]) = (Ok srv, tr1) ->
  ensurePvPoolStatefulset env pvp tr1 = (Ok sts, tr2) ->
  on_ListPods env tr2 (Namespace pvp) (getPvPoolLabels pvp) = Ok items ->
  collectPodsStatus env impl freshStatus items
    (tr2 ++ [ListPods (Namespace pvp) (getPvPoolLabels pvp)]) = ((st, Some e), tr3) ->
  st <> Status pvp ->
  exists res err,
    Reconcile env impl req tr = ((res, err), tr3 ++ [StatusUpdate (set_Status pvp st)])
    /\ RequeueAfter res = 3 * Second
    /\ Phase st = PvPoolPhaseUnknown
    /\ exists pre pod post reports,
         items = pre ++ pod :: post
         /\ Forall2 (answers env) pre reports
         /\ fails env pod e
         /\ PodsInfo st = zip_with podInfo pre reports.
Proof.
  intros Hget Hsrv Hsts Hlist Hcol _.
  pose proof (reconcilePvPool_collect_failed env impl _ _ _ _ _ _ _ _ _ _ Hsrv Hsts Hlist Hcol) as Hrec.
  rewrite (Reconcile_found env impl _ _ _ _ _ _ _ Hget Hrec).
  apply collectPodsStatus_failure in Hcol
    as (pre & pod & post & reports & Hitems & Hall & Hfail & Hst).
  assert (Hres : exists res err,
            match on_StatusUpdate env tr3 (set_Status pvp st) with
            | Some err => requeueWithError (Some err)
            | None => requeueWithError None
            end = (res, err) /\ RequeueAfter res = 3 * Second).
  { destruct (on_StatusUpdate _ _ _); eexists _, _; split; reflexivity. }
  destruct Hres as (res & err & -> & Hres).
  exists res, err. split; [reflexivity|]. split; [|split].
  - exact Hres.
  - rewrite Hst, recordAll_Phase. reflexivity.
  - exists pre, pod, post, reports.
    split; [exact Hitems|]. split; [exact Hall|]. split; [exact Hfail|].
    rewrite Hst, recordAll_PodsInfo. reflexivity.
Qed.

(** The agent of ordinal 1 is out of reach: the partial status is written. *)
Lemma collect_failure_writes_partial_status_witness :
  exists res err,
    Reconcile (cluster 2 2 (pods 2) unreachable_1) amd64 req []
    = ((res, err),
       [GetPvPool req;
        GetService {| nn_Namespace := "default"; nn_Name := "pool-srv" |};
        GetStatefulSet {| nn_Namespace := "default"; nn_Name := "pool-sts" |};
        ListPods "default" [("pv-pool"%string, "pool"%string)];
        HttpDo MethodGet (statusURL (mkPod "pool-sts-0"));
        HttpDo MethodGet (statusURL (mkPod "pool-sts-1"))]
       ++ [StatusUpdate (set_Status (pool 2) partial_status)])
    /\ RequeueAfter res = 3 * Second
    /\ Phase partial_status = PvPoolPhaseUnknown
    /\ exists pre pod post reports,
         pods 2 = pre ++ pod :: post
         /\ Forall2 (answers (cluster 2 2 (pods 2) unreachable_1)) pre reports
         /\ fails (cluster 2 2 (pods 2) unreachable_1) pod
              (ErrTransport (statusURL (mkPod "pool-sts-1")))
         /\ PodsInfo partial_status = zip_with podInfo pre reports.
Proof.
  apply (collect_failure_writes_partial_status
           (cluster 2 2 (pods 2) unreachable_1) amd64 req [] (pool 2) (srv 2)
           [GetPvPool req; GetService {| nn_Namespace := "default"; nn_Name := "pool-srv" |}]
           (sts 2 2)
           [GetPvPool req; GetService {| nn_Namespace := "default"; nn_Name := "pool-srv" |};
            GetStatefulSet {| nn_Namespace := "default"; nn_Name := "pool-sts" |}]
           (pods 2) partial_status
           (ErrTransport (statusURL (mkPod "pool-sts-1")))).
  - reflexivity.
  - reflexivity.
  - reflexivity.
  - reflexivity.
  - vm_compute. reflexivity.
  - vm_compute. discriminate.
Defined.

(** Against C1 as stated: the same pass returns no error and writes a
    status that differs from the stored one. *)
Lemma collect_failure_counterexample :
  let run := Reconcile (cluster 2 2 (pods 2) unreachable_1) amd64 req [] in
  snd (fst (collectPodsStatus (cluster 2 2 (pods 2) unreachable_1) amd64 freshStatus (pods 2) []))
    = Some (ErrTransport (statusURL (mkPod "pool-sts-1")))
  /\ snd (fst run) = None
  /\ status_updates (snd run) = [partial_status]
  /\ partial_status <> Status (pool 2).
Proof.
  repeat split; try (vm_compute; reflexivity). vm_compute. discriminate.
Qed.

(** C6, on the pool of [Demo] with the agent of ordinal 1 out of reach:
    [reconcilePvPool] returns the transport error, and [Reconcile] schedules
    the retry after three seconds but returns no error at all, because it
    hands the (nil) error of the initial fetch to [requeueWithError]. *)
Theorem Reconcile_drops_the_pass_error :
  let env := cluster 2 2 (pods 2) unreachable_1 in
  snd (fst (reconcilePvPool env amd64 (pool 2) [GetPvPool req]))
    = Some (ErrTransport (statusURL (mkPod "pool-sts-1")))
  /\ fst (Reconcile env amd64 req []) = ({| RequeueAfter := 3 * Second |}, None).
Proof. split; vm_compute; reflexivity. Qed.

(** The same for every pass whose steps fail while the status write succeeds. *)
Lemma Reconcile_pass_error env impl req tr pvp pvp' st e tr1 :
  on_GetPvPool env tr req = Ok pvp ->
  reconcilePvPool env impl pvp (tr ++ [GetPvPool req]) = ((pvp', st, Some e), tr1) ->
  on_StatusUpdate env tr1 (set_Status pvp' st) = None ->
  fst (Reconcile env impl req tr) = ({| RequeueAfter := 3 * Second |}, None).
Proof.
  intros Hget Hrec Hupd. rewrite (Reconcile_found env impl _ _ _ _ _ _ _ Hget Hrec), Hupd.
  reflexivity.
Qed.

(** C2, on desired size 2, four replicas and every pod Unknown: the pods
    of ordinals 2 and 3 both receive the decommission request, and their
    entries in the status that the pass writes are still Unknown, not
    Decommissioned. *)
Theorem decommissioned_pods_stay_unmarked :
  let env := cluster 2 4 (pods 4) (all_in PvPodStatusUnknown) in
  let run := Reconcile env amd64 req [] in
  decommission_calls (snd run)
    = [decommissionURL (mkPod "pool-sts-2"); decommissionURL (mkPod "pool-sts-3")]
  /\ (PodsInfo <$> status_updates (snd run))
     = [[ {| PodName := "pool-sts-0"; PodStatus := PvPodStatusUnknown |};
          {| PodName := "pool-sts-1"; PodStatus := PvPodStatusUnknown |};
          {| PodName := "pool-sts-2"; PodStatus := PvPodStatusUnknown |};
          {| PodName := "pool-sts-3"; PodStatus := PvPodStatusUnknown |} ]]
  /\ PvPodStatusUnknown <> PvPodStatusDecommissioned.
Proof. repeat split; try (vm_compute; reflexivity). discriminate. Qed.

(** C3.  For every desired size D and current replica count C with
    D >= C and a Ready count other than D, the engine sets the replica count
    of the scale-group to D, sets the phase to Scaling, and issues one
    update of the mutated scale-group (whose outcome it returns). *)
Theorem scale_up_sets_replicas_and_persists env pvp sts srv newStatus items tr :
  sts_Replicas sts <= NumPVs (Spec pvp) ->
  map_get (CountByState newStatus) PvPodStatusReady <> NumPVs (Spec pvp) ->
  exists o err,
    reconcilePvPoolStatefulset env pvp sts srv newStatus items tr
    = ((o, err), tr ++ [UpdateStatefulSet (o_sts o)])
    /\ o_sts o = set_Replicas sts (NumPVs (Spec pvp))
    /\ sts_Replicas (o_sts o) = NumPVs (Spec pvp)
    /\ o_newStatus o = set_Phase newStatus PvPoolPhaseScaling
    /\ Phase (o_newStatus o) = PvPoolPhaseScaling
    /\ err = on_UpdateStatefulSet env tr (o_sts o).
Proof.
  intros Hle Hready. rewrite engine_scale_up by assumption.
  exists {| o_pvp := pvp;
            o_sts := set_Replicas sts (NumPVs (Spec pvp));
            o_newStatus := set_Phase newStatus PvPoolPhaseScaling |},
         (on_UpdateStatefulSet env tr (set_Replicas sts (NumPVs (Spec pvp)))).
  repeat split.
Qed.

(** Desired size 4, two replicas, two Ready pods. *)
Lemma scale_up_sets_replicas_and_persists_witness :
  exists o err,
    reconcilePvPoolStatefulset (cluster 4 2 (pods 2) (all_in PvPodStatusReady))
      (pool 4) (sts 4 2) (srv 4) two_ready (pods 2) []
    = ((o, err), [] ++ [UpdateStatefulSet (o_sts o)])
    /\ o_sts o = set_Replicas (sts 4 2) (NumPVs (Spec (pool 4)))
    /\ sts_Replicas (o_sts o) = NumPVs (Spec (pool 4))
    /\ o_newStatus o = set_Phase two_ready PvPoolPhaseScaling
    /\ Phase (o_newStatus o) = PvPoolPhaseScaling
    /\ err = on_UpdateStatefulSet (cluster 4 2 (pods 2) (all_in PvPodStatusReady)) []
               (o_sts o).
Proof.
  apply (scale_up_sets_replicas_and_persists
           (cluster 4 2 (pods 2) (all_in PvPodStatusReady))
           (pool 4) (sts 4 2) (srv 4) two_ready (pods 2) []).
  - vm_compute. discriminate.
  - vm_compute. discriminate.
Defined.

(** C8.  On a converged state (replica count equal to the desired size,
    Ready count equal to the desired size) the engine sets the phase to
    Ready and makes no call at all: the trace is unchanged, so there is no
    scale-group write and no decommission request, and the objects are
    left as they were. *)
Theorem converged_engine_is_idle env pvp sts srv newStatus items tr :
  sts_Replicas sts = NumPVs (Spec pvp) ->
  map_get (CountByState newStatus) PvPodStatusReady = NumPVs (Spec pvp) ->
  exists o,
    reconcilePvPoolStatefulset env pvp sts srv newStatus items tr = ((o, None), tr)
    /\ Phase (o_newStatus o) = PvPoolPhaseReady
    /\ o_sts o = sts
    /\ o_pvp o = pvp.
Proof.
  intros Heq Hready. rewrite engine_converged by assumption.
  exists {| o_pvp := pvp; o_sts := sts;
            o_newStatus := set_Phase newStatus PvPoolPhaseReady |}.
  repeat split.
Qed.

(** Desired size 4, four replicas, four Ready pods. *)
Lemma converged_engine_is_idle_witness :
  exists o,
    reconcilePvPoolStatefulset (cluster 4 4 (pods 4) (all_in PvPodStatusReady))
      (pool 4) (sts 4 4) (srv 4) four_ready (pods 4) [] = ((o, None), [])
    /\ Phase (o_newStatus o) = PvPoolPhaseReady
    /\ o_sts o = sts 4 4
    /\ o_pvp o = pool 4.
Proof.
  apply (converged_engine_is_idle (cluster 4 4 (pods 4) (all_in PvPodStatusReady))
           (pool 4) (sts 4 4) (srv 4) four_ready (pods 4) []).
  - reflexivity.
  - reflexivity.
Defined.

(** Against C5 as stated: with desired size 4, four replicas and three
    Ready pods the phase becomes Scaling and the pass does write the
    scale-group, with its replica count of 4. *)
Lemma equal_replicas_not_ready_counterexample :
  let env := cluster 4 4 (pods 4) unknown_3 in
  let run := Reconcile env amd64 req [] in
  sts_Replicas (sts 4 4) = NumPVs (Spec (pool 4))
  /\ map (fun st => map_get (CountByState st) PvPodStatusReady) (status_updates (snd run))
     = [3]
  /\ (Phase <$> status_updates (snd run)) = [PvPoolPhaseScaling]
  /\ statefulset_writes (snd run) = [sts 4 4].
Proof. repeat split; vm_compute; reflexivity. Qed.

(** C4, as the code has it.  For D < C, when the decommission step ends
    without error (every agent it asks answers the status request, and
    accepts the decommission request when one is made), the step has asked,
    in list order, the agent of each pod whose name yields an ordinal, and
    has sent a decommission request right after the answer when the
    ordinal is >= D and the state just reported is not Decommissioning.
    So the decommission requests of the engine are one for each such pod,
    in list order; with distinct pod addresses each such pod receives
    exactly one request, and every other pod (ordinal < D, reported
    Decommissioning, or no ordinal) none. *)
Theorem scale_down_decommissions_each_required_pod
  env pvp sts srv newStatus items tr pvp' tr' :
  NumPVs (Spec pvp) < sts_Replicas sts ->
  decommissionRequiredPods env pvp sts items tr = ((pvp', None), tr') ->
  exists ext reports o,
    tr' = tr ++ ext
    /\ reconcilePvPoolStatefulset env pvp sts srv newStatus items tr = ((o, None), tr')
    /\ rereads env (NumPVs (Spec pvp)) (sts_Name sts) tr
         (List.filter (has_ordinal (sts_Name sts)) items) reports tr'
    /\ decommission_calls ext
       = map decommissionURL
           (decommissioned (NumPVs (Spec pvp)) (sts_Name sts)
              (List.filter (has_ordinal (sts_Name sts)) items) reports)
    /\ (NoDup (map decommissionURL items) ->
        (forall pod a,
           (pod, a) ∈ zip (List.filter (has_ordinal (sts_Name sts)) items) reports ->
           count_url (decommissionURL pod) (decommission_calls ext)
           = if required (NumPVs (Spec pvp)) (sts_Name sts) pod a
             then 1%nat else 0%nat)
        /\ (forall pod,
              pod ∈ items -> ordinal (sts_Name sts) pod = None ->
              count_url (decommissionURL pod) (decommission_calls ext) = 0%nat)).
Proof.
  intros Hlt Hrun.
  pose proof (engine_scale_down env pvp sts srv newStatus items tr pvp' tr' Hlt Hrun)
    as Heng.
  apply decommissionRequiredPods_success in Hrun as [-> (reports & Hrr & Hlen & ->)].
  set (D := NumPVs (Spec pvp)) in *.
  set (named := List.filter (has_ordinal (sts_Name sts)) items) in *.
  eexists _, reports, _. split; [reflexivity|]. split; [exact Heng|].
  split; [exact Hrr|].
  assert (Hcalls : decommission_calls
             (flat_map (fun pa => step_calls D (sts_Name sts) (fst pa) (snd pa))
                (zip named reports))
           = map decommissionURL (decommissioned D (sts_Name sts) named reports))
    by apply decommission_calls_steps.
  split; [exact Hcalls|].
  intros Hnd. rewrite Hcalls. unfold decommissioned. rewrite map_map.
  assert (Hnamed : NoDup (map decommissionURL named)) by apply NoDup_map_filter, Hnd.
  split.
  - intros pod a Hin.
    apply (count_url_map_filter (fun pa => decommissionURL (fst pa))
             (required_pair D (sts_Name sts)) (zip named reports) (pod, a)); [|exact Hin].
    rewrite <- (map_map fst decommissionURL), map_fst_zip by exact Hlen. exact Hnamed.
  - intros pod Hin Hord. apply count_url_absent. intros Hel.
    apply list_elem_of_In, in_map_iff in Hel as ([q b] & Heq & Hq). cbn [fst] in Heq.
    apply filter_In in Hq as [Hq _].
    assert (Hqn : q ∈ named).
    { rewrite <- (map_fst_zip named reports Hlen).
      apply list_elem_of_In. apply (in_map fst) in Hq. exact Hq. }
    assert (Hqi : q ∈ items /\ has_ordinal (sts_Name sts) q = true).
    { apply list_elem_of_In, filter_In in Hqn as [Hqi Ho]. split; [|exact Ho].
      apply list_elem_of_In, Hqi. }
    destruct Hqi as [Hqi Ho].
    assert (q = pod) by exact (NoDup_map_inj decommissionURL items q pod Hnd Hqi Hin Heq).
    subst q. unfold has_ordinal in Ho. rewrite Hord in Ho. discriminate.
Qed.

(** Desired size 2, four replicas; the agents turn Decommissioning once
    asked to, and the agent of ordinal 3 was asked before the pass: the
    step asks the four agents and sends one request, to ordinal 2. *)
Lemma scale_down_decommissions_each_required_pod_witness :
  exists ext reports o,
    [decommissionRequest (mkPod "pool-sts-3")]
      ++ [statusRequest (mkPod "pool-sts-0"); statusRequest (mkPod "pool-sts-1");
          statusRequest (mkPod "pool-sts-2"); decommissionRequest (mkPod "pool-sts-2");
          statusRequest (mkPod "pool-sts-3")]
    = [decommissionRequest (mkPod "pool-sts-3")] ++ ext
    /\ reconcilePvPoolStatefulset (cluster 2 4 (pods 4) turns_decommissioning)
         (pool 2) (sts 2 4) (srv 2) four_unknown (pods 4)
         [decommissionRequest (mkPod "pool-sts-3")]
       = ((o, None),
          [decommissionRequest (mkPod "pool-sts-3")]
            ++ [statusRequest (mkPod "pool-sts-0"); statusRequest (mkPod "pool-sts-1");
                statusRequest (mkPod "pool-sts-2");
                decommissionRequest (mkPod "pool-sts-2");
                statusRequest (mkPod "pool-sts-3")])
    /\ rereads (cluster 2 4 (pods 4) turns_decommissioning)
         (NumPVs (Spec (pool 2))) (sts_Name (sts 2 4))
         [decommissionRequest (mkPod "pool-sts-3")]
         (List.filter (has_ordinal (sts_Name (sts 2 4))) (pods 4)) reports
         ([decommissionRequest (mkPod "pool-sts-3")]
            ++ [statusRequest (mkPod "pool-sts-0"); statusRequest (mkPod "pool-sts-1");
                statusRequest (mkPod "pool-sts-2");
                decommissionRequest (mkPod "pool-sts-2");
                statusRequest (mkPod "pool-sts-3")])
    /\ decommission_calls ext
       = map decommissionURL
           (decommissioned (NumPVs (Spec (pool 2))) (sts_Name (sts 2 4))
              (List.filter (has_ordinal (sts_Name (sts 2 4))) (pods 4)) reports)
    /\ (NoDup (map decommissionURL (pods 4)) ->
        (forall pod a,
           (pod, a) ∈ zip (List.filter (has_ordinal (sts_Name (sts 2 4))) (pods 4)) reports ->
           count_url (decommissionURL pod) (decommission_calls ext)
           = if required (NumPVs (Spec (pool 2))) (sts_Name (sts 2 4)) pod a
             then 1%nat else 0%nat)
        /\ (forall pod,
              pod ∈ pods 4 -> ordinal (sts_Name (sts 2 4)) pod = None ->
              count_url (decommissionURL pod) (decommission_calls ext) = 0%nat)).
Proof.
  apply (scale_down_decommissions_each_required_pod
           (cluster 2 4 (pods 4) turns_decommissioning)
           (pool 2) (sts 2 4) (srv 2) four_unknown (pods 4)
           [decommissionRequest (mkPod "pool-sts-3")] (pool 2)).
  - vm_compute. reflexivity.
  - vm_compute. reflexivity.
Defined.

(** Against C4 as stated: the decommission request to ordinal 2 fails, and
    the pod of ordinal 3, observed Unknown, receives no request. *)
Lemma scale_down_counterexample :
  let env := cluster 2 4 (pods 4) refuses_2 in
  let run := Reconcile env amd64 req [] in
  NumPVs (Spec (pool 2)) < sts_Replicas (sts 2 4)
  /\ ordinal (sts_Name (sts 2 4)) (mkPod "pool-sts-3") = Some 3
  /\ (PodsInfo <$> status_updates (snd run))
     = [map (fun pod => podInfo pod (report PvPodStatusUnknown 10 100)) (pods 4)]
  /\ PvPodStatusUnknown <> PvPodStatusDecommissioning
  /\ count_url (decommissionURL (mkPod "pool-sts-3")) (decommission_calls (snd run)) = 0%nat.
Proof. repeat split; try (vm_compute; reflexivity). discriminate. Qed.






(** Dividing by the float zero: a positive dividend gives +Inf, zero
    gives NaN. *)
Lemma percent_quotient_by_zero used :
  0 <= used < 2 ^ 46 ->
  percent_quotient used 0 = if used =? 0 then S754_nan else S754_infinity false.
Proof.
  intros Hu. destruct (Z.eqb_spec used 0) as [->|Hne]; [reflexivity|].
  assert (Hmul : represents (float64_mul (float64_of_int used) (float64_of_int 100)) (used * 100)).
  { assert (2 ^ 46 * 128 = 2 ^ 53) by reflexivity.
    apply float64_mul_represents; try lia; apply float64_of_int_represents; lia. }
  destruct Hmul as (m & e & E & _). unfold percent_quotient. rewrite E. reflexivity.
Qed.

(** C10.  A pod whose agent reports total = 0 (and 0 <= used < 2^46)
    makes the collection succeed with a division by the float zero in
    [percent]: the divisor [float64(total)] is +0, the quotient of
    [float64(used) * 100] by it is +Inf for used > 0 and NaN for used = 0,
    it has no integer part, and the recorded utilisation is whatever the
    platform's conversion yields for it. *)
Theorem zero_total_reaches_division_by_zero env impl st pod a tr :
  on_HttpDo env tr MethodGet (statusURL pod) = Ok (okResponse a) ->
  sas_Total a = 0 ->
  0 <= sas_Used a < 2 ^ 46 ->
  exists st',
    collectPodsStatus env impl st [pod] tr
    = ((st', None), tr ++ [HttpDo MethodGet (statusURL pod)])
    /\ float64_of_int (sas_Total a) = S754_zero false
    /\ percent_quotient (sas_Used a) (sas_Total a)
       = float64_div (float64_mul (float64_of_int (sas_Used a)) (float64_of_int 100))
           (S754_zero false)
    /\ percent_quotient (sas_Used a) (sas_Total a)
       = (if sas_Used a =? 0 then S754_nan else S754_infinity false)
    /\ float64_trunc (percent_quotient (sas_Used a) (sas_Total a)) = None
    /\ Used st' = impl (if sas_Used a =? 0 then S754_nan else S754_infinity false).
Proof.
  intros Hget Htot Hused.
  exists (recordPodStatus impl st pod a).
  assert (Hq : percent_quotient (sas_Used a) (sas_Total a)
               = if sas_Used a =? 0 then S754_nan else S754_infinity false).
  { rewrite Htot. apply percent_quotient_by_zero, Hused. }
  assert (Ht : float64_trunc (percent_quotient (sas_Used a) (sas_Total a)) = None).
  { rewrite Hq. destruct (sas_Used a =? 0); reflexivity. }
  split; [|split; [|split; [|split; [|split]]]].
  - rewrite collectPodsStatus_cons, collectPodStatus_run, getStorageAgentStatus_run.
    fold (statusURL pod). rewrite Hget. reflexivity.
  - rewrite Htot. reflexivity.
  - unfold percent_quotient. rewrite Htot. reflexivity.
  - exact Hq.
  - exact Ht.
  - cbn [recordPodStatus Used]. unfold percent, int_of_float64. rewrite Ht, Hq.
    reflexivity.
Qed.

(** One pod reporting 5 used of 0: the quotient is +Inf. *)
Lemma zero_total_reaches_division_by_zero_witness :
  exists st',
    collectPodsStatus (cluster 1 1 (pods 1) (reporting 5 0)) amd64 freshStatus
      [mkPod "pool-sts-0"] []
    = ((st', None), [] ++ [HttpDo MethodGet (statusURL (mkPod "pool-sts-0"))])
    /\ float64_of_int (sas_Total (report PvPodStatusReady 5 0)) = S754_zero false
    /\ percent_quotient (sas_Used (report PvPodStatusReady 5 0))
         (sas_Total (report PvPodStatusReady 5 0))
       = float64_div
           (float64_mul (float64_of_int (sas_Used (report PvPodStatusReady 5 0)))
              (float64_of_int 100))
           (S754_zero false)
    /\ percent_quotient (sas_Used (report PvPodStatusReady 5 0))
         (sas_Total (report PvPodStatusReady 5 0))
       = (if sas_Used (report PvPodStatusReady 5 0) =? 0
          then S754_nan else S754_infinity false)
    /\ float64_trunc (percent_quotient (sas_Used (report PvPodStatusReady 5 0))
                        (sas_Total (report PvPodStatusReady 5 0))) = None
    /\ Used st' = amd64 (if sas_Used (report PvPodStatusReady 5 0) =? 0
                         then S754_nan else S754_infinity false).
Proof.
  apply (zero_total_reaches_division_by_zero (cluster 1 1 (pods 1) (reporting 5 0)) amd64
           freshStatus (mkPod "pool-sts-0") (report PvPodStatusReady 5 0) []).
  - reflexivity.
  - reflexivity.
  - vm_compute. split; discriminate || reflexivity.
Defined.

(** ** Further properties of the code *)

Lemma status_updates_app tr1 tr2 :
  status_updates (tr1 ++ tr2) = status_updates tr1 ++ status_updates tr2.
Proof. apply omap_app. Qed.

Lemma agent_calls_no_writes ext :
  Forall agent_call ext -> statefulset_writes ext = [] /\ status_updates ext = [].
Proof.
  induction 1 as [|c ext (m & url & ->) _ [IH1 IH2]]; [split; reflexivity|].
  split; cbn; assumption.
Qed.

Section Shapes.
Variable env : Env.
Variable impl : float64 -> Z.

Lemma getStorageAgentStatus_trace url tr :
  snd (getStorageAgentStatus env url tr) = tr ++ [HttpDo MethodGet (url +:+ "/status")].
Proof. rewrite getStorageAgentStatus_run. reflexivity. Qed.

Lemma decommissionPod_shape pvp sts pod tr :
  exists ext err,
    decommissionPod env pvp sts pod tr = ((pvp, err), tr ++ ext)
    /\ Forall agent_call ext.
Proof.
  assert (Hget : agent_call (HttpDo MethodGet (statusURL pod))) by (eexists _, _; reflexivity).
  assert (Hput : agent_call (HttpDo MethodPut (decommissionURL pod))) by (eexists _, _; reflexivity).
  unfold decommissionPod.
  destruct (getInstanceNumberString (pod_Name pod) (sts_Name sts)) as [num [err|]].
  - exists [], None. rewrite app_nil_r. split; [reflexivity|constructor].
  - rewrite bind_run.
    destruct (getStorageAgentStatus env _ tr) as [got tr1] eqn:Eg.
    pose proof (getStorageAgentStatus_trace
                  (getPodURL (pod_Name pod) (pod_Subdomain pod) (pod_Namespace pod)) tr) as Ht.
    rewrite Eg in Ht. cbn [snd] in Ht. fold (statusURL pod) in Ht. subst tr1.
    destruct got as [a|e].
    + destruct ((NumPVs (Spec pvp) <=? wrap32 num)
                && negb (String.eqb (sas_State a) PvPodStatusDecommissioning)).
      * rewrite bind_run, decommissionStorageAgent_run. fold (decommissionURL pod).
        rewrite markDecommissioned_id, set_PodsInfo_id.
        exists [HttpDo MethodGet (statusURL pod); HttpDo MethodPut (decommissionURL pod)].
        rewrite <- app_assoc. cbn [app].
        destruct (on_HttpDo env _ MethodPut (decommissionURL pod)) as [res|e];
          eexists; (split; [reflexivity|repeat constructor; assumption]).
      * exists [HttpDo MethodGet (statusURL pod)], None.
        split; [reflexivity|repeat constructor; assumption].
    + exists [HttpDo MethodGet (statusURL pod)], (Some e).
      split; [reflexivity|repeat constructor; assumption].
Qed.

Lemma decommissionRequiredPods_shape pvp sts items : forall tr,
  exists ext err,
    decommissionRequiredPods env pvp sts items tr = ((pvp, err), tr ++ ext)
    /\ Forall agent_call ext.
Proof.
  induction items as [|pod items IH]; intros tr.
  - exists [], None. rewrite app_nil_r. split; [reflexivity|constructor].
  - rewrite decommissionRequiredPods_cons.
    destruct (decommissionPod_shape pvp sts pod tr) as (ext1 & err1 & -> & H1).
    destruct err1 as [e|].
    + exists ext1, (Some e). split; [reflexivity|exact H1].
    + destruct (IH (tr ++ ext1)) as (ext2 & err2 & -> & H2).
      exists (ext1 ++ ext2), err2. rewrite app_assoc. split; [reflexivity|].
      apply Forall_app. split; assumption.
Qed.

Lemma engine_scale_down_any pvp sts srv st items tr :
  NumPVs (Spec pvp) < sts_Replicas sts ->
  exists ext derr,
    decommissionRequiredPods env pvp sts items tr = ((pvp, derr), tr ++ ext)
    /\ reconcilePvPoolStatefulset env pvp sts srv st items tr
       = (({| o_pvp := pvp; o_sts := sts; o_newStatus := st |}, None), tr ++ ext)
    /\ Forall agent_call ext.
Proof.
  intros Hlt. unfold reconcilePvPoolStatefulset.
  assert (H1 : (sts_Replicas sts <=? NumPVs (Spec pvp)) = false) by (apply Z.leb_gt; lia).
  assert (H2 : (NumPVs (Spec pvp) <? sts_Replicas sts) = true) by (apply Z.ltb_lt; lia).
  rewrite H1, H2. cbn [andb]. rewrite !bind_run.
  destruct (decommissionRequiredPods_shape pvp sts items tr) as (ext & err & -> & Hext).
  exists ext, err. split; [reflexivity|]. split; [reflexivity|exact Hext].
Qed.

End Shapes.

Lemma status_requests_agent_calls items :
  Forall agent_call (map statusRequest items).
Proof.
  induction items as [|pod items IH]; [constructor|].
  constructor; [eexists _, _; reflexivity | exact IH].
Qed.

Lemma status_requests_no_decommission items :
  decommission_calls (map statusRequest items) = [].
Proof. induction items as [|pod items IH]; [reflexivity | exact IH]. Qed.

Section Cases.
Variable env : Env.
Variable impl : float64 -> Z.

Lemma ensurePvPoolService_run pvp tr :
  ensurePvPoolService env pvp tr
  = match on_GetService env tr (serviceKey pvp) with
    | Ok srv => (Ok srv, tr ++ [GetService (serviceKey pvp)])
    | Err err =>
      if IsNotFound err then
        (match on_CreateService env (tr ++ [GetService (serviceKey pvp)])
                 (newServiceForPvPool pvp) with
         | Some err => Err err
         | None => Ok (newServiceForPvPool pvp)
         end,
         tr ++ [GetService (serviceKey pvp); CreateService (newServiceForPvPool pvp)])
      else (Err err, tr ++ [GetService (serviceKey pvp)])
    end.
Proof.
  unfold ensurePvPoolService. fold (serviceKey pvp).
  cbv beta iota delta [mbind M_bind mret M_ret perform].
  destruct (on_GetService env tr (serviceKey pvp)) as [srv|err]; [reflexivity|].
  destruct (IsNotFound err); [|reflexivity].
  rewrite <- app_assoc. cbn [app].
  destruct (on_CreateService env _ _); reflexivity.
Qed.

Lemma ensurePvPoolStatefulset_run pvp tr :
  ensurePvPoolStatefulset env pvp tr
  = match on_GetStatefulSet env tr (statefulsetKey pvp) with
    | Ok sts => (Ok sts, tr ++ [GetStatefulSet (statefulsetKey pvp)])
    | Err err =>
      if IsNotFound err then
        (match on_CreateStatefulSet env (tr ++ [GetStatefulSet (statefulsetKey pvp)])
                 (newStatefulsetForPvPool pvp) with
         | Some err => Err err
         | None => Ok (newStatefulsetForPvPool pvp)
         end,
         tr ++ [GetStatefulSet (statefulsetKey pvp);
                CreateStatefulSet (newStatefulsetForPvPool pvp)])
      else (Err err, tr ++ [GetStatefulSet (statefulsetKey pvp)])
    end.
Proof.
  unfold ensurePvPoolStatefulset. fold (statefulsetKey pvp).
  cbv beta iota delta [mbind M_bind mret M_ret perform].
  destruct (on_GetStatefulSet env tr (statefulsetKey pvp)) as [sts|err]; [reflexivity|].
  destruct (IsNotFound err); [|reflexivity].
  rewrite <- app_assoc. cbn [app].
  destruct (on_CreateStatefulSet env _ _); reflexivity.
Qed.

Lemma ensurePvPoolService_shape pvp tr :
  exists ext,
    snd (ensurePvPoolService env pvp tr) = tr ++ ext
    /\ status_updates ext = [] /\ decommission_calls ext = []
    /\ statefulset_writes ext = [].
Proof.
  rewrite ensurePvPoolService_run.
  destruct (on_GetService env tr (serviceKey pvp)) as [srv|err];
    [|destruct (IsNotFound err)]; eexists; (split; [reflexivity|repeat split]).
Qed.

Lemma ensurePvPoolStatefulset_shape pvp tr :
  exists ext,
    snd (ensurePvPoolStatefulset env pvp tr) = tr ++ ext
    /\ status_updates ext = [] /\ decommission_calls ext = [].
Proof.
  rewrite ensurePvPoolStatefulset_run.
  destruct (on_GetStatefulSet env tr (statefulsetKey pvp)) as [sts|err];
    [|destruct (IsNotFound err)]; eexists; (split; [reflexivity|repeat split]).
Qed.

Lemma collectPodsStatus_failure_trace items : forall st tr st' e tr',
  collectPodsStatus env impl st items tr = ((st', Some e), tr') ->
  exists pre pod post reports,
    items = pre ++ pod :: post
    /\ Forall2 (answers env) pre reports
    /\ fails env pod e
    /\ st' = recordAll impl st pre reports
    /\ tr' = tr ++ map statusRequest (pre ++ [pod]).
Proof.
  induction items as [|pod items IH]; intros st tr st' e tr' H.
  - inversion H.
  - rewrite collectPodsStatus_cons, collectPodStatus_run in H.
    destruct (getStorageAgentStatus env _ tr) as [[a|err] tr1] eqn:Eg; cbn [fst] in H.
    + apply getStorageAgentStatus_Ok in Eg as [Ha _].
      apply IH in H as (pre & p & post & reports & -> & Hall & Hfail & -> & ->).
      exists (pod :: pre), p, post, (a :: reports).
      split; [reflexivity|]. split; [constructor; [exists tr; exact Ha | exact Hall]|].
      split; [exact Hfail|]. split; [reflexivity|].
      rewrite <- app_assoc. reflexivity.
    + inversion H; subst. exists [], pod, items, [].
      split; [reflexivity|]. split; [constructor|]. split; [|split; reflexivity].
      exists tr. rewrite Eg. reflexivity.
Qed.

Lemma collectPodsStatus_shape items st tr :
  exists ext,
    snd (collectPodsStatus env impl st items tr) = tr ++ ext
    /\ Forall agent_call ext
    /\ decommission_calls ext = []
    /\ Phase (fst (fst (collectPodsStatus env impl st items tr))) = Phase st.
Proof.
  destruct (collectPodsStatus env impl st items tr) as [[st' [e|]] tr'] eqn:E.
  - apply collectPodsStatus_failure_trace in E
      as (pre & pod & post & reports & _ & _ & _ & -> & ->).
    eexists. split; [reflexivity|]. split; [apply status_requests_agent_calls|].
    split; [apply status_requests_no_decommission|]. apply recordAll_Phase.
  - apply collectPodsStatus_success in E as (reports & _ & -> & ->).
    eexists. split; [reflexivity|]. split; [apply (status_requests_agent_calls items)|].
    split; [apply (status_requests_no_decommission items)|]. apply recordAll_Phase.
Qed.

(** The three branches of the engine that can run. *)
Lemma engine_cases pvp sts srv st items tr :
  exists ext o err,
    reconcilePvPoolStatefulset env pvp sts srv st items tr = ((o, err), tr ++ ext)
    /\ o_pvp o = pvp
    /\ ((sts_Replicas sts <= NumPVs (Spec pvp)
         /\ map_get (CountByState st) PvPodStatusReady <> NumPVs (Spec pvp)
         /\ ext = [UpdateStatefulSet (set_Replicas sts (NumPVs (Spec pvp)))]
         /\ o_sts o = set_Replicas sts (NumPVs (Spec pvp))
         /\ o_newStatus o = set_Phase st PvPoolPhaseScaling
         /\ err = on_UpdateStatefulSet env tr (set_Replicas sts (NumPVs (Spec pvp))))
        \/ (NumPVs (Spec pvp) < sts_Replicas sts
            /\ Forall agent_call ext
            /\ o_sts o = sts /\ o_newStatus o = st /\ err = None)
        \/ (sts_Replicas sts <= NumPVs (Spec pvp)
            /\ map_get (CountByState st) PvPodStatusReady = NumPVs (Spec pvp)
            /\ ext = []
            /\ o_sts o = sts
            /\ o_newStatus o = set_Phase st PvPoolPhaseReady /\ err = None)).
Proof.
  destruct (Z.le_gt_cases (sts_Replicas sts) (NumPVs (Spec pvp))) as [Hle|Hgt].
  - destruct (Z.eq_dec (map_get (CountByState st) PvPodStatusReady) (NumPVs (Spec pvp)))
      as [Heq|Hne].
    + exists [], {| o_pvp := pvp; o_sts := sts;
                    o_newStatus := set_Phase st PvPoolPhaseReady |}, None.
      split; [|split; [reflexivity|right; right; repeat split; assumption]].
      rewrite app_nil_r. unfold reconcilePvPoolStatefulset.
      apply Z.leb_le in Hle. rewrite Hle, Heq, Z.eqb_refl. cbn [negb andb].
      replace (NumPVs (Spec pvp) <? sts_Replicas sts) with false
        by (symmetry; apply Z.ltb_ge, Z.leb_le, Hle).
      reflexivity.
    + eexists _, _, _. split; [apply engine_scale_up; assumption|].
      split; [reflexivity|left; repeat split; assumption].
  - destruct (engine_scale_down_any env pvp sts srv st items tr)
      as (ext & derr & _ & Hrun & Hext); [lia|].
    eexists _, _, _. split; [exact Hrun|]. split; [reflexivity|].
    right; left. repeat split; [lia|exact Hext].
Qed.

(** How a run of [reconcilePvPool] ends. *)
Lemma reconcilePvPool_cases pvp tr :
  (exists e tr', fails_early env pvp tr e tr'
     /\ reconcilePvPool env impl pvp tr = ((pvp, freshStatus, Some e), tr'))
  \/ (exists srv tr1 sts tr2 items,
        ensurePvPoolService env pvp tr = (Ok srv, tr1)
        /\ ensurePvPoolStatefulset env pvp tr1 = (Ok sts, tr2)
        /\ on_ListPods env tr2 (Namespace pvp) (getPvPoolLabels pvp) = Ok items
        /\ ((exists st e tr3,
               collectPodsStatus env impl freshStatus items (tr2 ++ [listPods pvp])
               = ((st, Some e), tr3)
               /\ reconcilePvPool env impl pvp tr = ((pvp, st, Some e), tr3))
            \/ (exists st tr3 o err tr4,
                  collectPodsStatus env impl freshStatus items (tr2 ++ [listPods pvp])
                  = ((st, None), tr3)
                  /\ reconcilePvPoolStatefulset env pvp sts srv st items tr3
                     = ((o, err), tr4)
                  /\ reconcilePvPool env impl pvp tr
                     = ((o_pvp o, o_newStatus o, err), tr4)))).
Proof.
  unfold reconcilePvPool, fails_early, listPods.
  cbv beta iota delta [mbind M_bind mret M_ret perform]. fold freshStatus.
  destruct (ensurePvPoolService env pvp tr) as [[srv|e] tr1] eqn:Esrv.
  2:{ left. exists e, tr1. split; [left; reflexivity|reflexivity]. }
  destruct (ensurePvPoolStatefulset env pvp tr1) as [[sts|e] tr2] eqn:Ests.
  2:{ left. exists e, tr2. split; [|reflexivity]. right; left. exists srv, tr1. split; [reflexivity|exact Ests]. }
  destruct (on_ListPods env tr2 (Namespace pvp) (getPvPoolLabels pvp)) as [items|e] eqn:El.
  2:{ left. exists e, (tr2 ++ [ListPods (Namespace pvp) (getPvPoolLabels pvp)]).
      split; [|reflexivity]. right; right. exists srv, tr1, sts, tr2. repeat split; assumption. }
  right. exists srv, tr1, sts, tr2, items. repeat split; try assumption.
  destruct (collectPodsStatus env impl freshStatus items _) as [[st [e|]] tr3] eqn:Ec.
  - left. exists st, e, tr3. split; reflexivity.
  - right.
    destruct (reconcilePvPoolStatefulset env pvp sts srv st items tr3) as [[o err] tr4] eqn:Ee.
    exists st, tr3, o, err, tr4. split; [reflexivity|]. split; [exact Ee|].
    destruct err; reflexivity.
Qed.

End Cases.

(** C5, as the code has it.  In every state in which the replica count
    equals the desired size and the Ready count does not, the engine sets
    the phase to Scaling and writes the scale-group back, unchanged, in
    its one call; the outcome of that write is its error.  The state falls
    under the scale-up branch, whose guard is D >= C, and that branch is
    the only one that writes: in whatever state of the scale-group and of
    the status, a run of the engine that writes the scale-group has
    C <= D and a Ready count other than D. *)
Theorem equal_replicas_not_ready_rewrites_scale_group
  env pvp sts srv newStatus items tr :
  sts_Replicas sts = NumPVs (Spec pvp) ->
  map_get (CountByState newStatus) PvPodStatusReady <> NumPVs (Spec pvp) ->
  (exists o ext,
     reconcilePvPoolStatefulset env pvp sts srv newStatus items tr
     = ((o, on_UpdateStatefulSet env tr sts), tr ++ ext)
     /\ ext = [UpdateStatefulSet sts]
     /\ statefulset_writes ext = [sts]
     /\ Phase (o_newStatus o) = PvPoolPhaseScaling
     /\ o_sts o = sts
     /\ o_pvp o = pvp)
  /\ (forall sts' st' ext o err,
        reconcilePvPoolStatefulset env pvp sts' srv st' items tr = ((o, err), tr ++ ext) ->
        statefulset_writes ext <> [] ->
        sts_Replicas sts' <= NumPVs (Spec pvp)
        /\ map_get (CountByState st') PvPodStatusReady <> NumPVs (Spec pvp)).
Proof.
  intros Heq Hready. split.
  - rewrite engine_equal_replicas_not_ready by assumption.
    eexists _, [UpdateStatefulSet sts]. split; [reflexivity|]. repeat split.
  - intros sts' st' ext o err Hrun Hw.
    destruct (engine_cases env pvp sts' srv st' items tr)
      as (ext0 & o0 & err0 & Hrun0 & _ & Hcase).
    rewrite Hrun in Hrun0. inversion Hrun0 as [[Ho He Hext]].
    apply app_inv_head in Hext. subst ext0.
    destruct Hcase as [(Hle & Hne & _)|[(_ & Ha & _)|(_ & _ & -> & _)]].
    + split; assumption.
    + exfalso. apply Hw, agent_calls_no_writes, Ha.
    + exfalso. apply Hw. reflexivity.
Qed.

(** Desired size 4, four replicas, three Ready pods and one Unknown. *)
Lemma equal_replicas_not_ready_rewrites_scale_group_witness :
  (exists o ext,
     reconcilePvPoolStatefulset (cluster 4 4 (pods 4) unknown_3)
       (pool 4) (sts 4 4) (srv 4) three_ready (pods 4) []
     = ((o, on_UpdateStatefulSet (cluster 4 4 (pods 4) unknown_3) [] (sts 4 4)),
        [] ++ ext)
     /\ ext = [UpdateStatefulSet (sts 4 4)]
     /\ statefulset_writes ext = [sts 4 4]
     /\ Phase (o_newStatus o) = PvPoolPhaseScaling
     /\ o_sts o = sts 4 4
     /\ o_pvp o = pool 4)
  /\ (forall sts' st' ext o err,
        reconcilePvPoolStatefulset (cluster 4 4 (pods 4) unknown_3)
          (pool 4) sts' (srv 4) st' (pods 4) [] = ((o, err), [] ++ ext) ->
        statefulset_writes ext <> [] ->
        sts_Replicas sts' <= NumPVs (Spec (pool 4))
        /\ map_get (CountByState st') PvPodStatusReady <> NumPVs (Spec (pool 4))).
Proof.
  apply (equal_replicas_not_ready_rewrites_scale_group (cluster 4 4 (pods 4) unknown_3)
           (pool 4) (sts 4 4) (srv 4) three_ready (pods 4) []).
  - reflexivity.
  - vm_compute. discriminate.
Defined.

Section PassShape.
Variable env : Env.
Variable impl : float64 -> Z.

Lemma fails_early_run pvp tr e tr' :
  fails_early env pvp tr e tr' ->
  reconcilePvPool env impl pvp tr = ((pvp, freshStatus, Some e), tr').
Proof.
  unfold fails_early, listPods, reconcilePvPool.
  cbv beta iota delta [mbind M_bind mret M_ret perform]. fold freshStatus.
  intros [H|[(srv & tr1 & H1 & H2)|(srv & tr1 & sts & tr2 & H1 & H2 & H3 & ->)]].
  - rewrite H. reflexivity.
  - rewrite H1, H2. reflexivity.
  - rewrite H1, H2, H3. reflexivity.
Qed.

Lemma fails_early_shape pvp tr e tr' :
  fails_early env pvp tr e tr' ->
  exists ext, tr' = tr ++ ext /\ status_updates ext = [] /\ decommission_calls ext = [].
Proof.
  intros [H|[(srv & tr1 & H1 & H2)|(srv & tr1 & sts & tr2 & H1 & H2 & H3 & ->)]].
  - destruct (ensurePvPoolService_shape env pvp tr) as (e1 & Ht & Hs & Hd & _).
    rewrite H in Ht. exists e1. repeat split; assumption.
  - destruct (ensurePvPoolService_shape env pvp tr) as (e1 & Ht1 & Hs1 & Hd1 & _).
    destruct (ensurePvPoolStatefulset_shape env pvp tr1) as (e2 & Ht2 & Hs2 & Hd2).
    rewrite H1 in Ht1. rewrite H2 in Ht2. cbn [snd] in *. subst.
    exists (e1 ++ e2). rewrite app_assoc, status_updates_app, decommission_calls_app,
      Hs1, Hs2, Hd1, Hd2. repeat split.
  - destruct (ensurePvPoolService_shape env pvp tr) as (e1 & Ht1 & Hs1 & Hd1 & _).
    destruct (ensurePvPoolStatefulset_shape env pvp tr1) as (e2 & Ht2 & Hs2 & Hd2).
    rewrite H1 in Ht1. rewrite H2 in Ht2. cbn [snd] in *. subst.
    exists (e1 ++ e2 ++ [listPods pvp]).
    rewrite !app_assoc, !status_updates_app, !decommission_calls_app, Hs1, Hs2, Hd1, Hd2.
    repeat split.
Qed.

(** What every run of [reconcilePvPool] has in common. *)
Lemma reconcilePvPool_shape pvp tr :
  exists st rerr ext,
    reconcilePvPool env impl pvp tr = ((pvp, st, rerr), tr ++ ext)
    /\ status_updates ext = []
    /\ (Phase st = PvPoolPhaseReady ->
        rerr = None
        /\ map_get (CountByState st) PvPodStatusReady = NumPVs (Spec pvp)
        /\ decommission_calls ext = []).
Proof.
  destruct (reconcilePvPool_cases env impl pvp tr)
    as [(e & tr' & Hearly & Hrun)
       |(srv & tr1 & sts & tr2 & items & Hsrv & Hsts & Hlist & Hrest)].
  - destruct (fails_early_shape _ _ _ _ Hearly) as (ext & -> & Hs & _).
    exists freshStatus, (Some e), ext. split; [exact Hrun|]. split; [exact Hs|].
    intros Hph. discriminate Hph.
  - destruct (ensurePvPoolService_shape env pvp tr) as (e1 & Ht1 & Hs1 & Hd1 & _).
    destruct (ensurePvPoolStatefulset_shape env pvp tr1) as (e2 & Ht2 & Hs2 & Hd2).
    rewrite Hsrv in Ht1. rewrite Hsts in Ht2. cbn [snd] in Ht1, Ht2. subst tr1 tr2.
    destruct (collectPodsStatus_shape env impl items freshStatus
                (tr ++ e1 ++ e2 ++ [listPods pvp])) as (e3 & Ht3 & Ha3 & Hd3 & Hp3).
    rewrite !app_assoc in Ht3, Hp3.
    destruct (agent_calls_no_writes e3 Ha3) as [_ Hs3].
    destruct Hrest as [(st & e & tr3 & Hcol & Hrun)|(st & tr3 & o & err & tr4 & Hcol & Heng & Hrun)];
      rewrite Hcol in Ht3, Hp3; cbn [fst snd] in Ht3, Hp3; subst tr3.
    + exists st, (Some e), (e1 ++ e2 ++ [listPods pvp] ++ e3).
      split; [rewrite Hrun, !app_assoc; reflexivity|].
      split.
      * rewrite !status_updates_app, Hs1, Hs2, Hs3. reflexivity.
      * intros Hph. rewrite Hp3 in Hph. discriminate Hph.
    + destruct (engine_cases env pvp sts srv st items
                  ((((tr ++ e1) ++ e2) ++ [listPods pvp]) ++ e3))
        as (e4 & o' & err' & Heng' & Hpvp & Hcase).
      rewrite Heng in Heng'. inversion Heng'; subst o' err' tr4. clear Heng'.
      exists (o_newStatus o), err, (e1 ++ e2 ++ [listPods pvp] ++ e3 ++ e4).
      split; [rewrite Hrun, Hpvp, !app_assoc; reflexivity|].
      destruct Hcase as [(_ & _ & -> & _ & Hst & _)|[(_ & Ha4 & _ & Hst & Herr)
                                                    |(_ & Hready & -> & _ & Hst & Herr)]].
      * split; [rewrite !status_updates_app, Hs1, Hs2, Hs3; reflexivity|].
        intros Hph. rewrite Hst in Hph. discriminate Hph.
      * destruct (agent_calls_no_writes e4 Ha4) as [_ Hs4].
        split; [rewrite !status_updates_app, Hs1, Hs2, Hs3, Hs4; reflexivity|].
        intros Hph. rewrite Hst, Hp3 in Hph. discriminate Hph.
      * split; [rewrite !status_updates_app, Hs1, Hs2, Hs3; reflexivity|].
        intros _. split; [exact Herr|]. split; [rewrite Hst; exact Hready|].
        rewrite !decommission_calls_app, Hd1, Hd2, Hd3. reflexivity.
Qed.

End PassShape.

Lemma Reconcile_not_fetched env impl req tr e :
  on_GetPvPool env tr req = Err e ->
  Reconcile env impl req tr
  = ((if IsNotFound e then ({| RequeueAfter := 0 |}, None)
      else ({| RequeueAfter := 3 * Second |}, Some e)),
     tr ++ [GetPvPool req]).
Proof.
  intros Hget. unfold Reconcile.
  cbv beta iota delta [mbind M_bind mret M_ret perform]. rewrite Hget.
  destruct (IsNotFound e); reflexivity.
Qed.

(** When the pool cannot be fetched the pass makes no other call: a pool
    that is not found ends the loop without error and without requeue, any
    other error is returned with the retry after three seconds. *)
Theorem fetch_failure_ends_the_pass env impl req tr e :
  on_GetPvPool env tr req = Err e ->
  Reconcile env impl req tr
  = ((if IsNotFound e then ({| RequeueAfter := 0 |}, None)
      else ({| RequeueAfter := 3 * Second |}, Some e)),
     tr ++ [GetPvPool req]).
Proof. apply Reconcile_not_fetched. Qed.

Lemma fetch_failure_ends_the_pass_witness :
  Reconcile gone amd64 req []
  = ((if IsNotFound ErrNotFound then ({| RequeueAfter := 0 |}, None)
      else ({| RequeueAfter := 3 * Second |}, Some ErrNotFound)),
     [] ++ [GetPvPool req]).
Proof. apply (fetch_failure_ends_the_pass gone amd64 req [] ErrNotFound). reflexivity. Defined.

(** When the status write fails, its error is what [Reconcile] returns,
    with the retry after three seconds, whatever the steps before it did. *)
Theorem status_write_error_is_returned env impl req tr pvp e :
  on_GetPvPool env tr req = Ok pvp ->
  on_StatusUpdate env
    (snd (reconcilePvPool env impl pvp (tr ++ [GetPvPool req])))
    (set_Status pvp (snd (fst (fst (reconcilePvPool env impl pvp (tr ++ [GetPvPool req]))))))
  = Some e ->
  fst (Reconcile env impl req tr) = ({| RequeueAfter := 3 * Second |}, Some e).
Proof.
  intros Hget Hupd.
  destruct (reconcilePvPool_shape env impl pvp (tr ++ [GetPvPool req]))
    as (st & rerr & ext & Hrun & _).
  rewrite Hrun in Hupd. cbn [fst snd] in Hupd.
  rewrite (Reconcile_found env impl _ _ _ _ _ _ _ Hget Hrun), Hupd. reflexivity.
Qed.

Lemma status_write_error_is_returned_witness :
  fst (Reconcile (write_refused 4 4 (pods 4) (all_in PvPodStatusReady)) amd64 req [])
  = ({| RequeueAfter := 3 * Second |}, Some (ErrAPI "conflict")).
Proof.
  apply (status_write_error_is_returned
           (write_refused 4 4 (pods 4) (all_in PvPodStatusReady)) amd64 req [] (pool 4)).
  - reflexivity.
  - reflexivity.
Defined.

(** Every pass that fetches the pool writes the status exactly once, as
    its last call, with the status that [reconcilePvPool] computed: the
    comparison with the stored status never prevents the write. *)
Theorem every_pass_writes_the_status_once env impl req tr pvp :
  on_GetPvPool env tr req = Ok pvp ->
  exists st ext,
    snd (Reconcile env impl req tr)
    = tr ++ GetPvPool req :: ext ++ [StatusUpdate (set_Status pvp st)]
    /\ status_updates ext = []
    /\ st = snd (fst (fst (reconcilePvPool env impl pvp (tr ++ [GetPvPool req])))).
Proof.
  intros Hget.
  destruct (reconcilePvPool_shape env impl pvp (tr ++ [GetPvPool req]))
    as (st & rerr & ext & Hrun & Hs & _).
  exists st, ext.
  rewrite (Reconcile_found env impl _ _ _ _ _ _ _ Hget Hrun), Hrun. cbn [fst snd].
  split; [|split; [exact Hs|reflexivity]].
  rewrite <- !app_assoc. reflexivity.
Qed.

(** A returned error always comes with the retry after three seconds; the
    delay is none, three seconds or sixty seconds; and no requeue at all
    means that the pool was not found. *)
Theorem every_error_is_retried env impl req tr :
  (snd (fst (Reconcile env impl req tr)) <> None ->
   RequeueAfter (fst (fst (Reconcile env impl req tr))) = 3 * Second)
  /\ (RequeueAfter (fst (fst (Reconcile env impl req tr))) = 0
      \/ RequeueAfter (fst (fst (Reconcile env impl req tr))) = 3 * Second
      \/ RequeueAfter (fst (fst (Reconcile env impl req tr))) = 60 * Second)
  /\ (RequeueAfter (fst (fst (Reconcile env impl req tr))) = 0 ->
      exists e, on_GetPvPool env tr req = Err e /\ IsNotFound e = true).
Proof.
  destruct (on_GetPvPool env tr req) as [pvp|e] eqn:Hget.
  - destruct (reconcilePvPool_shape env impl pvp (tr ++ [GetPvPool req]))
      as (st & rerr & ext & Hrun & _).
    rewrite (Reconcile_found env impl _ _ _ _ _ _ _ Hget Hrun). cbn [fst snd].
    destruct (on_StatusUpdate env _ _) as [e|]; [|destruct rerr as [e|];
      [|destruct (negb (String.eqb (Phase st) PvPoolPhaseReady))]];
      cbn; (split; [intros; try reflexivity; congruence|]);
      (split; [auto|intros H; discriminate H]).
  - rewrite (Reconcile_not_fetched env impl req tr e Hget).
    destruct (IsNotFound e) eqn:Hnf; cbn [fst snd RequeueAfter].
    + split; [congruence|]. split; [auto|]. intros _. exists e. split; reflexivity || assumption.
    + split; [reflexivity|]. split; [auto|]. intros H. discriminate H.
Qed.

(** The sixty-second re-check is scheduled only by a pass that returns no
    error, writes phase Ready with a Ready count equal to the desired size,
    and has sent no decommission request. *)
Theorem long_requeue_only_when_ready env impl req tr :
  RequeueAfter (fst (fst (Reconcile env impl req tr))) = 60 * Second ->
  exists pvp st ext,
    on_GetPvPool env tr req = Ok pvp
    /\ Reconcile env impl req tr
       = (({| RequeueAfter := 60 * Second |}, None),
          tr ++ GetPvPool req :: ext ++ [StatusUpdate (set_Status pvp st)])
    /\ Phase st = PvPoolPhaseReady
    /\ map_get (CountByState st) PvPodStatusReady = NumPVs (Spec pvp)
    /\ decommission_calls ext = [].
Proof.
  intros H60.
  destruct (on_GetPvPool env tr req) as [pvp|e] eqn:Hget.
  2:{ rewrite (Reconcile_not_fetched env impl req tr e Hget) in H60.
      destruct (IsNotFound e); discriminate H60. }
  destruct (reconcilePvPool_shape env impl pvp (tr ++ [GetPvPool req]))
    as (st & rerr & ext & Hrun & _ & Hready).
  rewrite (Reconcile_found env impl _ _ _ _ _ _ _ Hget Hrun) in H60 |- *.
  cbn [fst] in H60.
  destruct (on_StatusUpdate env _ _) as [e|]; [discriminate H60|].
  destruct rerr as [e|]; [discriminate H60|].
  destruct (String.eqb_spec (Phase st) PvPoolPhaseReady) as [Hph|Hph];
    cbn [negb] in H60 |- *; [|discriminate H60].
  destruct (Hready Hph) as (_ & Hcount & Hdec).
  exists pvp, st, ext. split; [reflexivity|]. split; [|repeat split; assumption].
  rewrite <- !app_assoc. reflexivity.
Qed.

Lemma long_requeue_only_when_ready_witness :
  exists pvp st ext,
    on_GetPvPool (cluster 4 4 (pods 4) (all_in PvPodStatusReady)) [] req = Ok pvp
    /\ Reconcile (cluster 4 4 (pods 4) (all_in PvPodStatusReady)) amd64 req []
       = (({| RequeueAfter := 60 * Second |}, None),
          [] ++ GetPvPool req :: ext ++ [StatusUpdate (set_Status pvp st)])
    /\ Phase st = PvPoolPhaseReady
    /\ map_get (CountByState st) PvPodStatusReady = NumPVs (Spec pvp)
    /\ decommission_calls ext = [].
Proof.
  apply (long_requeue_only_when_ready
           (cluster 4 4 (pods 4) (all_in PvPodStatusReady)) amd64 req []).
  vm_compute. reflexivity.
Defined.

(** When ensuring the service or the scale-group, or listing the pods,
    fails, the pass overwrites the pool's status with the empty status of
    phase Unknown and schedules the retry after three seconds. *)
Theorem early_failure_resets_the_status env impl req tr pvp e tr' :
  on_GetPvPool env tr req = Ok pvp ->
  fails_early env pvp (tr ++ [GetPvPool req]) e tr' ->
  Reconcile env impl req tr
  = (({| RequeueAfter := 3 * Second |},
      on_StatusUpdate env tr' (set_Status pvp freshStatus)),
     tr' ++ [StatusUpdate (set_Status pvp freshStatus)]).
Proof.
  intros Hget Hearly.
  rewrite (Reconcile_found env impl _ _ _ _ _ _ _ Hget (fails_early_run env impl _ _ _ _ Hearly)).
  destruct (on_StatusUpdate env tr' _); reflexivity.
Qed.

Lemma early_failure_resets_the_status_witness :
  Reconcile (no_service 4) amd64 req []
  = (({| RequeueAfter := 3 * Second |},
      on_StatusUpdate (no_service 4)
        [GetPvPool req; GetService (serviceKey (pool 4))]
        (set_Status (pool 4) freshStatus)),
     [GetPvPool req; GetService (serviceKey (pool 4))]
       ++ [StatusUpdate (set_Status (pool 4) freshStatus)]).
Proof.
  apply (early_failure_resets_the_status (no_service 4) amd64 req [] (pool 4)
           (ErrAPI "timeout")).
  - reflexivity.
  - left. reflexivity.
Defined.

(** The engine never lowers the replica count: it leaves the scale-group
    alone and writes nothing, or it writes it once with the desired size,
    which is then at least the count it found. *)
Theorem engine_never_lowers_replicas env pvp sts srv st items tr :
  exists ext o err,
    reconcilePvPoolStatefulset env pvp sts srv st items tr = ((o, err), tr ++ ext)
    /\ sts_Replicas sts <= sts_Replicas (o_sts o)
    /\ ((statefulset_writes ext = [] /\ o_sts o = sts)
        \/ (statefulset_writes ext = [o_sts o]
            /\ o_sts o = set_Replicas sts (NumPVs (Spec pvp))
            /\ sts_Replicas sts <= NumPVs (Spec pvp)
            /\ map_get (CountByState st) PvPodStatusReady <> NumPVs (Spec pvp))).
Proof.
  destruct (engine_cases env pvp sts srv st items tr) as (ext & o & err & Hrun & _ & Hcase).
  exists ext, o, err. split; [exact Hrun|].
  destruct Hcase as [(Hle & Hne & -> & Hsts & _)|[(_ & Ha & Hsts & _)|(_ & _ & -> & Hsts & _)]];
    rewrite Hsts.
  - split; [exact Hle|]. right. repeat split; assumption.
  - split; [lia|]. left. split; [apply agent_calls_no_writes, Ha|reflexivity].
  - split; [lia|]. left. split; reflexivity.
Qed.

(** On scale-down the engine only talks to agents: the pool, the
    scale-group and the status are left as they were, and the error of
    [decommissionRequiredPods], if any, is not returned. *)
Theorem scale_down_changes_nothing_and_hides_errors env pvp sts srv st items tr :
  NumPVs (Spec pvp) < sts_Replicas sts ->
  exists ext derr,
    decommissionRequiredPods env pvp sts items tr = ((pvp, derr), tr ++ ext)
    /\ reconcilePvPoolStatefulset env pvp sts srv st items tr
       = (({| o_pvp := pvp; o_sts := sts; o_newStatus := st |}, None), tr ++ ext)
    /\ Forall agent_call ext
    /\ statefulset_writes ext = [].
Proof.
  intros Hlt.
  destruct (engine_scale_down_any env pvp sts srv st items tr Hlt)
    as (ext & derr & Hloop & Hrun & Ha).
  exists ext, derr. split; [exact Hloop|]. split; [exact Hrun|]. split; [exact Ha|].
  apply agent_calls_no_writes, Ha.
Qed.

Lemma scale_down_changes_nothing_and_hides_errors_witness :
  exists ext derr,
    decommissionRequiredPods (cluster 2 4 (pods 4) refuses_2) (pool 2) (sts 2 4) (pods 4) []
    = ((pool 2, derr), [] ++ ext)
    /\ reconcilePvPoolStatefulset (cluster 2 4 (pods 4) refuses_2) (pool 2) (sts 2 4)
         (srv 2) four_unknown (pods 4) []
       = (({| o_pvp := pool 2; o_sts := sts 2 4; o_newStatus := four_unknown |}, None),
          [] ++ ext)
    /\ Forall agent_call ext
    /\ statefulset_writes ext = [].
Proof.
  apply (scale_down_changes_nothing_and_hides_errors (cluster 2 4 (pods 4) refuses_2)
           (pool 2) (sts 2 4) (srv 2) four_unknown (pods 4) []).
  vm_compute. reflexivity.
Defined.

Lemma every_pass_writes_the_status_once_witness :
  exists st ext,
    snd (Reconcile (cluster 4 4 (pods 4) (all_in PvPodStatusReady)) amd64 req [])
    = [] ++ GetPvPool req :: ext ++ [StatusUpdate (set_Status (pool 4) st)]
    /\ status_updates ext = []
    /\ st = snd (fst (fst (reconcilePvPool (cluster 4 4 (pods 4) (all_in PvPodStatusReady))
                             amd64 (pool 4) ([] ++ [GetPvPool req])))).
Proof.
  apply (every_pass_writes_the_status_once
           (cluster 4 4 (pods 4) (all_in PvPodStatusReady)) amd64 req [] (pool 4)).
  reflexivity.
Defined.

(** [decommissionRequiredPods] stops at the first pod whose agent call
    fails: the pods after it are not contacted. *)
Theorem decommission_stops_at_first_failure env pvp sts pre pod post : forall tr tr1 e tr2,
  decommissionRequiredPods env pvp sts pre tr = ((pvp, None), tr1) ->
  decommissionPod env pvp sts pod tr1 = ((pvp, Some e), tr2) ->
  decommissionRequiredPods env pvp sts (pre ++ pod :: post) tr = ((pvp, Some e), tr2).
Proof.
  induction pre as [|p pre IH]; intros tr tr1 e tr2 Hpre Hpod.
  - inversion Hpre; subst. cbn [app]. rewrite decommissionRequiredPods_cons, Hpod. reflexivity.
  - cbn [app]. rewrite decommissionRequiredPods_cons in Hpre |- *.
    destruct (decommissionPod_shape env pvp sts p tr) as (ext & err & Hp & _).
    rewrite Hp in Hpre |- *. destruct err as [e'|]; [discriminate Hpre|].
    apply (IH _ _ _ _ Hpre Hpod).
Qed.

Lemma decommission_stops_at_first_failure_witness :
  decommissionRequiredPods (cluster 2 4 (pods 4) refuses_2) (pool 2) (sts 2 4)
    (pods 2 ++ mkPod "pool-sts-2" :: [mkPod "pool-sts-3"]) []
  = ((pool 2, Some (ErrTransport (decommissionURL (mkPod "pool-sts-2")))),
     [statusRequest (mkPod "pool-sts-0"); statusRequest (mkPod "pool-sts-1");
      statusRequest (mkPod "pool-sts-2");
      HttpDo MethodPut (decommissionURL (mkPod "pool-sts-2"))]).
Proof.
  apply (decommission_stops_at_first_failure (cluster 2 4 (pods 4) refuses_2)
           (pool 2) (sts 2 4) (pods 2) (mkPod "pool-sts-2") [mkPod "pool-sts-3"] []
           [statusRequest (mkPod "pool-sts-0"); statusRequest (mkPod "pool-sts-1")]).
  - vm_compute. reflexivity.
  - vm_compute. reflexivity.
Defined.

(** A successful collection sends one status request per pod, in list
    order, appends one entry per pod, and leaves the phase alone. *)
Theorem collection_asks_each_pod_once env impl st items tr st' tr' :
  collectPodsStatus env impl st items tr = ((st', None), tr') ->
  tr' = tr ++ map statusRequest items
  /\ Phase st' = Phase st
  /\ map PodName (PodsInfo st') = map PodName (PodsInfo st) ++ map pod_Name items.
Proof.
  intros H. apply collectPodsStatus_success in H as (reports & Hall & -> & ->).
  split; [reflexivity|]. split; [apply recordAll_Phase|].
  rewrite recordAll_PodsInfo, map_app. f_equal.
  induction Hall as [|pod a items reports _ _ IH]; [reflexivity|].
  cbn. f_equal. exact IH.
Qed.

Lemma collection_asks_each_pod_once_witness :
  snd (collectPodsStatus (cluster 4 4 (pods 4) unknown_3) amd64 freshStatus (pods 4) [])
  = [] ++ map statusRequest (pods 4)
  /\ Phase (fst (fst (collectPodsStatus (cluster 4 4 (pods 4) unknown_3) amd64
                        freshStatus (pods 4) [])))
     = Phase freshStatus
  /\ map PodName
       (PodsInfo (fst (fst (collectPodsStatus (cluster 4 4 (pods 4) unknown_3) amd64
                              freshStatus (pods 4) []))))
     = map PodName (PodsInfo freshStatus) ++ map pod_Name (pods 4).
Proof.
  apply (collection_asks_each_pod_once (cluster 4 4 (pods 4) unknown_3) amd64
           freshStatus (pods 4) []).
  vm_compute. reflexivity.
Defined.

(** A failed collection stops at the failing pod: the pods before it were
    asked and recorded, the failing pod was asked, the pods after it were
    not. *)
Theorem collection_stops_at_first_failure env impl st items tr st' e tr' :
  collectPodsStatus env impl st items tr = ((st', Some e), tr') ->
  exists pre pod post,
    items = pre ++ pod :: post
    /\ fails env pod e
    /\ tr' = tr ++ map statusRequest (pre ++ [pod])
    /\ map PodName (PodsInfo st') = map PodName (PodsInfo st) ++ map pod_Name pre
    /\ Phase st' = Phase st.
Proof.
  intros H. apply collectPodsStatus_failure_trace in H
    as (pre & pod & post & reports & Hitems & Hall & Hfail & -> & ->).
  exists pre, pod, post. split; [exact Hitems|]. split; [exact Hfail|].
  split; [reflexivity|]. split; [|apply recordAll_Phase].
  rewrite recordAll_PodsInfo, map_app. f_equal.
  clear Hitems. induction Hall as [|p a pre reports _ _ IH]; [reflexivity|].
  cbn. f_equal. exact IH.
Qed.

Lemma collection_stops_at_first_failure_witness :
  exists pre pod post,
    pods 4 = pre ++ pod :: post
    /\ fails (cluster 4 4 (pods 4) unreachable_1) pod
         (ErrTransport (statusURL (mkPod "pool-sts-1")))
    /\ [statusRequest (mkPod "pool-sts-0"); statusRequest (mkPod "pool-sts-1")]
       = [] ++ map statusRequest (pre ++ [pod])
    /\ map PodName (PodsInfo partial_status)
       = map PodName (PodsInfo freshStatus) ++ map pod_Name pre
    /\ Phase partial_status = Phase freshStatus.
Proof.
  apply (collection_stops_at_first_failure (cluster 4 4 (pods 4) unreachable_1) amd64
           freshStatus (pods 4) []).
  vm_compute. reflexivity.
Defined.

(** Pods whose name yields no ordinal are skipped by
    [decommissionRequiredPods]: the run is that over the other pods. *)
Theorem malformed_pod_names_are_skipped env pvp sts items : forall tr,
  decommissionRequiredPods env pvp sts items tr
  = decommissionRequiredPods env pvp sts
      (List.filter (has_ordinal (sts_Name sts)) items) tr.
Proof.
  induction items as [|pod items IH]; intros tr; [reflexivity|].
  cbn [List.filter]. unfold has_ordinal at 1, ordinal.
  destruct (getInstanceNumberString (pod_Name pod) (sts_Name sts)) as [num [err|]] eqn:Ep.
  - rewrite <- IH, decommissionRequiredPods_cons. unfold decommissionPod. rewrite Ep.
    reflexivity.
  - rewrite !decommissionRequiredPods_cons.
    destruct (decommissionPod_shape env pvp sts pod tr) as (ext & err & -> & _).
    destruct err; [reflexivity|]. apply IH.
Qed.

Lemma set_Replicas_same sts : set_Replicas sts (sts_Replicas sts) = sts.
Proof. destruct sts. reflexivity. Qed.

(** The first pass for a new pool creates the service and the scale-group
    (with the desired size as replica count); for a desired size other than
    zero it then updates the scale-group it just created and writes phase
    Scaling; for size zero it writes phase Ready. *)
Theorem first_pass_creates_service_and_scale_group env impl req tr pvp :
  on_GetPvPool env tr req = Ok pvp ->
  brand_new env pvp (tr ++ [GetPvPool req]) ->
  snd (Reconcile env impl req tr)
  = (tr ++ [GetPvPool req]) ++ brand_new_calls pvp
    ++ (if NumPVs (Spec pvp) =? 0 then []
        else [UpdateStatefulSet (newStatefulsetForPvPool pvp)])
    ++ [StatusUpdate
          (set_Status pvp
             (set_Phase freshStatus
                (if NumPVs (Spec pvp) =? 0 then PvPoolPhaseReady
                 else PvPoolPhaseScaling)))]
  /\ sts_Replicas (newStatefulsetForPvPool pvp) = NumPVs (Spec pvp).
Proof.
  intros Hget ((e1 & Hsrv & Hnf1) & Hcs & (e2 & Hsts & Hnf2) & Hcsts & Hlist).
  split; [|reflexivity].
  set (t0 := tr ++ [GetPvPool req]) in *.
  set (t4 := (t0 ++ [GetService (serviceKey pvp); CreateService (newServiceForPvPool pvp)])
             ++ [GetStatefulSet (statefulsetKey pvp);
                 CreateStatefulSet (newStatefulsetForPvPool pvp)]) in *.
  assert (Hrun : exists err,
            reconcilePvPool env impl pvp t0
            = ((pvp,
                set_Phase freshStatus
                  (if NumPVs (Spec pvp) =? 0 then PvPoolPhaseReady else PvPoolPhaseScaling),
                err),
               (t4 ++ [listPods pvp])
                 ++ (if NumPVs (Spec pvp) =? 0 then []
                     else [UpdateStatefulSet (newStatefulsetForPvPool pvp)]))).
  { unfold reconcilePvPool.
    cbv beta iota delta [mbind M_bind mret M_ret perform]. fold freshStatus.
    rewrite ensurePvPoolService_run, Hsrv, Hnf1, Hcs.
    rewrite ensurePvPoolStatefulset_run, Hsts, Hnf2, Hcsts.
    fold t4. rewrite Hlist. cbn [collectPodsStatus]. unfold mret, M_ret.
    fold (listPods pvp).
    destruct (Z.eqb_spec (NumPVs (Spec pvp)) 0) as [H0|H0].
    - rewrite engine_converged; [|reflexivity|cbn; rewrite map_get_empty; lia].
      exists None. rewrite app_nil_r. reflexivity.
    - rewrite engine_scale_up; [|cbn; lia|cbn; rewrite map_get_empty; lia].
      replace (set_Replicas (newStatefulsetForPvPool pvp) (NumPVs (Spec pvp)))
        with (newStatefulsetForPvPool pvp) by reflexivity.
      destruct (on_UpdateStatefulSet env _ _) as [e|]; eexists; reflexivity. }
  destruct Hrun as (err & Hrun).
  rewrite (Reconcile_found env impl _ _ _ _ _ _ _ Hget Hrun). cbn [snd].
  unfold t4, brand_new_calls. rewrite <- !app_assoc. reflexivity.
Qed.

Lemma first_pass_creates_service_and_scale_group_witness :
  snd (Reconcile (fresh_cluster 4) amd64 req [])
  = ([] ++ [GetPvPool req]) ++ brand_new_calls (pool 4)
    ++ (if NumPVs (Spec (pool 4)) =? 0 then []
        else [UpdateStatefulSet (newStatefulsetForPvPool (pool 4))])
    ++ [StatusUpdate
          (set_Status (pool 4)
             (set_Phase freshStatus
                (if NumPVs (Spec (pool 4)) =? 0 then PvPoolPhaseReady
                 else PvPoolPhaseScaling)))]
  /\ sts_Replicas (newStatefulsetForPvPool (pool 4)) = NumPVs (Spec (pool 4)).
Proof.
  apply (first_pass_creates_service_and_scale_group (fresh_cluster 4) amd64 req [] (pool 4)).
  - reflexivity.
  - unfold brand_new. cbn. repeat split; try reflexivity; exists ErrNotFound; split; reflexivity.
Defined.

Lemma reported_in_turn_length env items : forall reports tr,
  reported_in_turn env tr items reports -> length reports = length items.
Proof.
  induction items as [|pod items IH]; intros [|a reports] tr H;
    try contradiction; [reflexivity|].
  destruct H as [_ H]. cbn [length]. f_equal. apply (IH _ _ H).
Qed.

Lemma collectPodsStatus_reported env impl items : forall reports st tr,
  reported_in_turn env tr items reports ->
  collectPodsStatus env impl st items tr
  = ((recordAll impl st items reports, None), tr ++ map statusRequest items).
Proof.
  induction items as [|pod items IH]; intros [|a reports] st tr H; try contradiction.
  - cbn. rewrite app_nil_r. reflexivity.
  - destruct H as [Hget H].
    rewrite collectPodsStatus_cons, collectPodStatus_run, getStorageAgentStatus_run.
    fold (statusURL pod). rewrite Hget.
    cbn [fst okResponse StatusCode Body Z.eqb Pos.eqb negb].
    fold (statusRequest pod). rewrite (IH _ _ _ H).
    cbn [map]. rewrite recordAll_cons, <- app_assoc. reflexivity.
Qed.

Lemma count_state_all s reports :
  Forall (fun a => sas_State a = s) reports ->
  count_state s reports = Z.of_nat (length reports).
Proof.
  unfold count_state. induction 1 as [|a reports Ha _ IH]; [reflexivity|].
  cbn [List.filter]. rewrite Ha, String.eqb_refl. cbn [length].
  rewrite !Nat2Z.inj_succ. lia.
Qed.

(** A pass over a converged pool (replica count and number of pods equal
    to the desired size, every agent reporting Ready when the collection
    asks it) asks each agent once, writes phase Ready with the full Ready
    count and one entry per pod, and schedules the sixty-second re-check
    when the status write succeeds.  Nothing is assumed about decommission
    requests: the pass makes none. *)
Theorem converged_pass_reports_ready env impl req tr pvp srv tr1 sts tr2 items reports :
  on_GetPvPool env tr req = Ok pvp ->
  ensurePvPoolService env pvp (tr ++ [GetPvPool req]) = (Ok srv, tr1) ->
  ensurePvPoolStatefulset env pvp tr1 = (Ok sts, tr2) ->
  on_ListPods env tr2 (Namespace pvp) (getPvPoolLabels pvp) = Ok items ->
  reported_in_turn env (tr2 ++ [listPods pvp]) items reports ->
  Forall (fun a => sas_State a = PvPodStatusReady) reports ->
  sts_Replicas sts = NumPVs (Spec pvp) ->
  Z.of_nat (length items) = NumPVs (Spec pvp) ->
  NumPVs (Spec pvp) < 2 ^ 31 ->
  exists st,
    Reconcile env impl req tr
    = (match on_StatusUpdate env ((tr2 ++ [listPods pvp]) ++ map statusRequest items)
               (set_Status pvp st) with
       | Some e => ({| RequeueAfter := 3 * Second |}, Some e)
       | None => ({| RequeueAfter := 60 * Second |}, None)
       end,
       ((tr2 ++ [listPods pvp]) ++ map statusRequest items)
         ++ [StatusUpdate (set_Status pvp st)])
    /\ Phase st = PvPoolPhaseReady
    /\ map_get (CountByState st) PvPodStatusReady = NumPVs (Spec pvp)
    /\ PodsInfo st = zip_with podInfo items reports
    /\ length (PodsInfo st) = length items.
Proof.
  intros Hget Hsrv Hsts Hlist Hrep Hready Hreplicas Hlen Hbound.
  pose proof (reported_in_turn_length _ _ _ _ Hrep) as Hl.
  set (st0 := recordAll impl freshStatus items reports).
  assert (Hcount : map_get (CountByState st0) PvPodStatusReady = NumPVs (Spec pvp)).
  { destruct (recordAll_counts impl items freshStatus reports 0) as [Hc _].
    - symmetry. exact Hl.
    - intros s. cbn [freshStatus CountByState]. rewrite map_get_empty. lia.
    - rewrite Hl. lia.
    - unfold st0. rewrite Hc. cbn [freshStatus CountByState]. rewrite map_get_empty.
      rewrite count_state_all by exact Hready. rewrite Hl. lia. }
  assert (Hrun : reconcilePvPool env impl pvp (tr ++ [GetPvPool req])
                 = ((pvp, set_Phase st0 PvPoolPhaseReady, None),
                    (tr2 ++ [listPods pvp]) ++ map statusRequest items)).
  { unfold reconcilePvPool.
    cbv beta iota delta [mbind M_bind mret M_ret perform]. fold freshStatus.
    rewrite Hsrv, Hsts, Hlist. fold (listPods pvp).
    rewrite (collectPodsStatus_reported env impl items reports) by exact Hrep.
    fold st0. rewrite engine_converged by assumption. reflexivity. }
  exists (set_Phase st0 PvPoolPhaseReady).
  rewrite (Reconcile_found env impl _ _ _ _ _ _ _ Hget Hrun).
  split; [destruct (on_StatusUpdate env _ _); reflexivity|].
  split; [reflexivity|]. split; [exact Hcount|].
  assert (Hinfo : PodsInfo (set_Phase st0 PvPoolPhaseReady) = zip_with podInfo items reports).
  { cbn [set_Phase PodsInfo]. unfold st0. rewrite recordAll_PodsInfo. reflexivity. }
  split; [exact Hinfo|].
  rewrite Hinfo, length_zip_with, Hl. lia.
Qed.

(** Four Ready agents that refuse every decommission request. *)
Lemma converged_pass_reports_ready_witness :
  exists st,
    Reconcile (cluster 4 4 (pods 4) ready_refusing) amd64 req []
    = (match on_StatusUpdate (cluster 4 4 (pods 4) ready_refusing)
               (([GetPvPool req; GetService (serviceKey (pool 4));
                  GetStatefulSet (statefulsetKey (pool 4))] ++ [listPods (pool 4)])
                  ++ map statusRequest (pods 4))
               (set_Status (pool 4) st) with
       | Some e => ({| RequeueAfter := 3 * Second |}, Some e)
       | None => ({| RequeueAfter := 60 * Second |}, None)
       end,
       (([GetPvPool req; GetService (serviceKey (pool 4));
          GetStatefulSet (statefulsetKey (pool 4))] ++ [listPods (pool 4)])
          ++ map statusRequest (pods 4))
         ++ [StatusUpdate (set_Status (pool 4) st)])
    /\ Phase st = PvPoolPhaseReady
    /\ map_get (CountByState st) PvPodStatusReady = NumPVs (Spec (pool 4))
    /\ PodsInfo st
       = zip_with podInfo (pods 4) (replicate 4 (report PvPodStatusReady 10 100))
    /\ length (PodsInfo st) = length (pods 4).
Proof.
  apply (converged_pass_reports_ready (cluster 4 4 (pods 4) ready_refusing)
           amd64 req [] (pool 4) (srv 4)
           [GetPvPool req; GetService (serviceKey (pool 4))] (sts 4 4)).
  - reflexivity.
  - reflexivity.
  - reflexivity.
  - reflexivity.
  - cbn. repeat split.
  - repeat constructor.
  - reflexivity.
  - reflexivity.
  - reflexivity.
Defined.

(** A scale-down pass after a successful collection writes the collected
    status with phase Unknown and schedules the retry after three seconds;
    the only error it can return is that of the status write. *)
Theorem scale_down_pass_reports_unknown env impl req tr pvp srv tr1 sts tr2 items st tr3 :
  on_GetPvPool env tr req = Ok pvp ->
  ensurePvPoolService env pvp (tr ++ [GetPvPool req]) = (Ok srv, tr1) ->
  ensurePvPoolStatefulset env pvp tr1 = (Ok sts, tr2) ->
  on_ListPods env tr2 (Namespace pvp) (getPvPoolLabels pvp) = Ok items ->
  collectPodsStatus env impl freshStatus items (tr2 ++ [listPods pvp]) = ((st, None), tr3) ->
  NumPVs (Spec pvp) < sts_Replicas sts ->
  exists ext,
    Reconcile env impl req tr
    = (({| RequeueAfter := 3 * Second |},
        on_StatusUpdate env (tr3 ++ ext) (set_Status pvp st)),
       (tr3 ++ ext) ++ [StatusUpdate (set_Status pvp st)])
    /\ Forall agent_call ext
    /\ Phase st = PvPoolPhaseUnknown.
Proof.
  intros Hget Hsrv Hsts Hlist Hcol Hlt.
  destruct (engine_scale_down_any env pvp sts srv st items tr3 Hlt)
    as (ext & derr & _ & Heng & Hext).
  assert (Hph : Phase st = PvPoolPhaseUnknown).
  { pose proof (collectPodsStatus_shape env impl items freshStatus (tr2 ++ [listPods pvp]))
      as (e3 & _ & _ & _ & Hp). rewrite Hcol in Hp. exact Hp. }
  assert (Hrun : reconcilePvPool env impl pvp (tr ++ [GetPvPool req])
                 = ((pvp, st, None), tr3 ++ ext)).
  { unfold reconcilePvPool.
    cbv beta iota delta [mbind M_bind mret M_ret perform]. fold freshStatus.
    rewrite Hsrv, Hsts, Hlist. fold (listPods pvp). rewrite Hcol, Heng. reflexivity. }
  exists ext. rewrite (Reconcile_found env impl _ _ _ _ _ _ _ Hget Hrun), Hph.
  split; [|split; [exact Hext|reflexivity]].
  destruct (on_StatusUpdate env _ _); reflexivity.
Qed.

Lemma scale_down_pass_reports_unknown_witness :
  exists ext,
    Reconcile (cluster 2 4 (pods 4) refuses_2) amd64 req []
    = (({| RequeueAfter := 3 * Second |},
        on_StatusUpdate (cluster 2 4 (pods 4) refuses_2)
          (([GetPvPool req; GetService (serviceKey (pool 2));
             GetStatefulSet (statefulsetKey (pool 2)); listPods (pool 2)]
              ++ map statusRequest (pods 4)) ++ ext)
          (set_Status (pool 2) four_unknown)),
       (([GetPvPool req; GetService (serviceKey (pool 2));
          GetStatefulSet (statefulsetKey (pool 2)); listPods (pool 2)]
           ++ map statusRequest (pods 4)) ++ ext)
         ++ [StatusUpdate (set_Status (pool 2) four_unknown)])
    /\ Forall agent_call ext
    /\ Phase four_unknown = PvPoolPhaseUnknown.
Proof.
  apply (scale_down_pass_reports_unknown (cluster 2 4 (pods 4) refuses_2) amd64 req []
           (pool 2) (srv 2) [GetPvPool req; GetService (serviceKey (pool 2))]
           (sts 2 4)
           [GetPvPool req; GetService (serviceKey (pool 2));
            GetStatefulSet (statefulsetKey (pool 2))]
           (pods 4)).
  - reflexivity.
  - reflexivity.
  - reflexivity.
  - reflexivity.
  - vm_compute. reflexivity.
  - vm_compute. reflexivity.
Defined.

Lemma append_cancel_l pre a b : pre +:+ a = pre +:+ b -> a = b.
Proof.
  induction pre as [|c pre IH]; simpl; intros H; [exact H|].
  injection H as H. apply IH, H.
Qed.

Lemma length_append a b :
  String.length (a +:+ b) = (String.length a + String.length b)%nat.
Proof. induction a as [|c a IH]; simpl; [reflexivity|]. rewrite IH. reflexivity. Qed.

Lemma append_cancel_r suf a : forall b, a +:+ suf = b +:+ suf -> a = b.
Proof.
  induction a as [|c a IH]; intros [|c' b] H.
  - reflexivity.
  - apply (f_equal String.length) in H. rewrite !length_append in H. cbn in H. lia.
  - apply (f_equal String.length) in H. rewrite !length_append in H. cbn in H. lia.
  - change (String c (a +:+ suf) = String c' (b +:+ suf)) in H.
    injection H as -> H. f_equal. apply IH, H.
Qed.

Lemma getPodURL_name_inj name1 name2 sub ns :
  getPodURL name1 sub ns = getPodURL name2 sub ns -> name1 = name2.
Proof.
  unfold getPodURL. intros H. apply append_cancel_l in H.
  apply append_cancel_r in H. exact H.
Qed.

(** Pods of one namespace and subdomain with distinct names have distinct
    status and decommission addresses. *)
Theorem distinct_names_give_distinct_addresses items ns sub :
  (forall pod, pod ∈ items -> pod_Namespace pod = ns /\ pod_Subdomain pod = sub) ->
  NoDup (map pod_Name items) ->
  NoDup (map statusURL items) /\ NoDup (map decommissionURL items).
Proof.
  intros Hsame Hnd.
  assert (Hinj : forall p q, p ∈ items -> q ∈ items ->
            getPodURL (pod_Name p) (pod_Subdomain p) (pod_Namespace p)
            = getPodURL (pod_Name q) (pod_Subdomain q) (pod_Namespace q) -> p = q).
  { intros p q Hp Hq H. destruct (Hsame p Hp) as [Hn1 Hs1]. destruct (Hsame q Hq) as [Hn2 Hs2].
    rewrite Hn1, Hs1, Hn2, Hs2 in H. apply getPodURL_name_inj in H.
    destruct p, q. cbn in *. congruence. }
  apply NoDup_fmap_1 in Hnd.
  split; apply NoDup_fmap_2_strong; try exact Hnd; intros p q Hp Hq H;
    apply (Hinj p q Hp Hq); unfold statusURL, decommissionURL in H;
    eapply append_cancel_r, H.
Qed.

Lemma distinct_names_give_distinct_addresses_witness :
  NoDup (map statusURL (pods 4)) /\ NoDup (map decommissionURL (pods 4)).
Proof.
  apply (distinct_names_give_distinct_addresses (pods 4) "default" "pool-srv").
  - intros pod Hpod. repeat (apply elem_of_cons in Hpod as [->|Hpod]; [split; reflexivity|]).
    apply elem_of_nil in Hpod. contradiction.
  - apply (bool_decide_unpack (NoDup (map pod_Name (pods 4)))). vm_compute. exact I.
Defined.

(** A pod named [<scale-group>-<numeral>] with a numeral below 2^63 has
    the numeral's value reduced to [int32] as its ordinal. *)
Theorem ordinal_is_reduced_to_int32 stsName ds ns sub :
  ds <> [] -> Forall is_digit ds -> digits_value ds < 2 ^ 63 ->
  ordinal stsName {| pod_Name := (stsName +:+ "-") +:+ decimal ds;
                     pod_Namespace := ns; pod_Subdomain := sub |}
  = Some (wrap32 (digits_value ds)).
Proof.
  intros Hne Hds Hv. unfold ordinal, getInstanceNumberString. cbn [pod_Name].
  rewrite TrimPrefix_app, Atoi_decimal; [reflexivity|exact Hne|exact Hds|lia].
Qed.

Lemma ordinal_is_reduced_to_int32_witness :
  ordinal "pool-sts" {| pod_Name := ("pool-sts" +:+ "-") +:+ decimal [4; 2; 9; 4; 9; 6; 7; 2; 9; 8];
                        pod_Namespace := "default"; pod_Subdomain := "pool-srv" |}
  = Some (wrap32 (digits_value [4; 2; 9; 4; 9; 6; 7; 2; 9; 8])).
Proof.
  apply (ordinal_is_reduced_to_int32 "pool-sts" [4; 2; 9; 4; 9; 6; 7; 2; 9; 8]
           "default" "pool-srv").
  - discriminate.
  - repeat constructor; unfold is_digit; lia.
  - vm_compute. reflexivity.
Defined.

Lemma ordinal_of_convention_witness :
  ordinal "pool-sts" {| pod_Name := ("pool-sts" +:+ "-") +:+ decimal [1; 7];
                        pod_Namespace := "default"; pod_Subdomain := "pool-srv" |}
  = Some (digits_value [1; 7]).
Proof.
  apply (ordinal_of_convention "pool-sts" [1; 7] "default" "pool-srv").
  - discriminate.
  - repeat constructor; unfold is_digit; lia.
  - vm_compute. reflexivity.
Defined.

